(** * retarget_bvh: target-rig identification ([target.py])

    A shallow embedding of [target.py] and the properties of its mapping
    tables: the parent-role resolution of [CTargetInfo.addParents], the two
    mapping operations [addAutoBones] and [addManualBones], rig-kind
    guessing, the process-wide registry [_targetInfo] and the target-file
    format written by [saveTargetFile] and read by [CTargetInfo.readFile].

    Python objects that the module mutates in place (the armature, the
    scene, the registry, the file system, standard output) are fields of one
    [World]; every function of the module is a computation in a state monad
    over it whose outcome is a value, a raised exception or divergence.

    The embedding covers the class [CTargetInfo] and the module-level
    functions.  The operator classes and [initialize]/[uninitialize] only
    register the functions with the host and are left out.  Paths are POSIX
    paths; a mapping file is an object whose members are strings or objects
    of strings; the scene setting [McpTargetRig] is kept as a string. *)

From Stdlib Require Import ZArith Ascii String.
From stdpp Require Import base option list strings gmap sorting.

Local Open Scope string_scope.
Local Open Scope list_scope.

(** ** Python values and exceptions *)

(** The exceptions the module can let escape. *)
Inductive exn : Type :=
  | KeyError (key : string)
  | AttributeError (msg : string)
  | TypeError (msg : string)
  | OSError (path : string)
  | JSONDecodeError (path : string)
  | MocapError (msg : string).

(** The outcome of running a statement: it returns, raises, or (a [while]
    loop over a cyclic parent chain) never finishes. *)
Inductive outcome (A : Type) : Type :=
  | Return (a : A)
  | Raise (e : exn)
  | Diverge.
Arguments Return {A} a.
Arguments Raise {A} e.
Arguments Diverge {A}.

(** Truth value of a Python string: non-empty. *)
Definition truthy (s : string) : bool := bool_decide (s ≠ "").

(** ** The state monad *)

Definition M (St A : Type) : Type := St → outcome A * St.

#[global] Instance M_ret {St} : MRet (M St) := λ A a s, (Return a, s).

#[global] Instance M_bind {St} : MBind (M St) := λ A B f m s,
  match m s with
  | (Return a, s') => f a s'
  | (Raise e, s') => (Raise e, s')
  | (Diverge, s') => (Diverge, s')
  end.

Definition raise {St A} (e : exn) : M St A := λ s, (Raise e, s).
Definition diverge {St A} : M St A := λ s, (Diverge, s).
Definition gets {St A} (f : St → A) : M St A := λ s, (Return (f s), s).
Definition modify {St} (f : St → St) : M St unit := λ s, (Return tt, f s).
Definition when {St} (b : bool) (m : M St unit) : M St unit :=
  if b then m else mret tt.

(** [for x in xs: body(x)]; an exception or divergence in the body leaves
    the loop. *)
Fixpoint for_ {St A} (xs : list A) (body : A → M St unit) : M St unit :=
  match xs with
  | [] => mret tt
  | x :: xs' => body x ;; for_ xs' body
  end.

(** ** JSON documents

    The mapping files hold an object whose members are strings or objects
    of strings; that fragment of JSON is all the module reads or writes.
    An object is kept as the list of its members in document order (the
    order [dict.items()] yields). *)
Inductive jvalue : Type :=
  | JStr (s : string)
  | JDict (d : list (string * string)).

Definition jstruct : Type := list (string * jvalue).

(** [d[key]] on a dict. *)
Fixpoint getitem {V} (d : list (string * V)) (key : string) : option V :=
  match d with
  | [] => None
  | (k, v) :: d' => if String.eqb k key then Some v else getitem d' key
  end.

(** [d[key] = v] on a dict: an existing key keeps its place, a new one is
    appended. *)
Fixpoint setitem {V} (d : list (string * V)) (key : string) (v : V)
  : list (string * V) :=
  match d with
  | [] => [(key, v)]
  | (k, v') :: d' =>
      if String.eqb k key then (k, v) :: d' else (k, v') :: setitem d' key v
  end.

(** ** The armature *)

(** A pose bone of [rig.pose.bones] ([pb.name], [pb.parent], [pb.McpBone],
    [pb.McpParent]); [pb_parent] is the position of the parent
    bone in that collection. *)
Record PoseBone : Type := mkPoseBone {
  pb_name : string;
  pb_parent : option nat;
  McpBone : string;
  McpParent : string
}.

Definition set_McpBone (v : string) (pb : PoseBone) : PoseBone :=
  mkPoseBone (pb_name pb) (pb_parent pb) v (McpParent pb).
Definition set_McpParent (v : string) (pb : PoseBone) : PoseBone :=
  mkPoseBone (pb_name pb) (pb_parent pb) (McpBone pb) v.

Record Rig : Type := mkRig {
  rig_name : string;
  pose_bones : list PoseBone;
  McpTPoseFile : string
}.

Definition set_pose_bones (bs : list PoseBone) (rig : Rig) : Rig :=
  mkRig (rig_name rig) bs (McpTPoseFile rig).
Definition set_McpTPoseFile (v : string) (rig : Rig) : Rig :=
  mkRig (rig_name rig) (pose_bones rig) v.

(** [pb.parent]: the parent bone, or [None]. *)
Definition parent_of (bones : list PoseBone) (pb : PoseBone) : option PoseBone :=
  p ← pb_parent pb; bones !! p.

(** [rig.pose.bones[bname]]: position of the bone called [bname]. *)
Definition bone_index (bones : list PoseBone) (bname : string) : option nat :=
  fst <$> list_find (λ pb, pb_name pb = bname) bones.

(** The [while par:] loop of [addParents], started at [par]: the name of the
    first bone on the parent chain that carries a role ([Some (Some n)]),
    or [Some None] when the chain ends without one.  [None]: the chain is
    longer than [fuel]. *)
Fixpoint while_par (fuel : nat) (bones : list PoseBone) (par : option PoseBone)
  : option (option string) :=
  match par with
  | None => Some None
  | Some b =>
      if truthy (McpBone b) then Some (Some (pb_name b))
      else match fuel with
           | O => None
           | S fuel' => while_par fuel' bones (parent_of bones b)
           end
  end.

(** Every bone reaches a root in at most [fuel] parent steps. *)
Fixpoint reaches_root (fuel : nat) (bones : list PoseBone) (par : option nat) : bool :=
  match par with
  | None => true
  | Some p =>
      match fuel, bones !! p with
      | S fuel', Some b => reaches_root fuel' bones (pb_parent b)
      | _, _ => false
      end
  end.

(** What the host guarantees of an armature: bone names are unique keys and
    the parent links form a forest. *)
Definition wf_bones (bones : list PoseBone) : Prop :=
  NoDup (pb_name <$> bones) ∧
  Forall (λ pb, reaches_root (length bones) bones (pb_parent pb) = true) bones.

(** ** Paths and strings ([os.path], [str])

    POSIX paths; case mapping on the ASCII letters. *)

(** [s.rfind(c)]: position of the last [c] in [s], or [-1]. *)
Fixpoint rfind (c : ascii) (s : string) : Z :=
  match s with
  | EmptyString => (-1)%Z
  | String a s' =>
      let r := rfind c s' in
      if (0 <=? r)%Z then (r + 1)%Z
      else if Ascii.eqb a c then 0%Z else (-1)%Z
  end.

(** [s[:i]] and [s[i:]] for [0 <= i]. *)
Definition slice_to (i : Z) (s : string) : string := substring 0 (Z.to_nat i) s.
Definition slice_from (i : Z) (s : string) : string :=
  substring (Z.to_nat i) (String.length s - Z.to_nat i) s.

(** Is some character of [s] not a dot? *)
Fixpoint has_non_dot (s : string) : bool :=
  match s with
  | EmptyString => false
  | String a s' => negb (Ascii.eqb a ".") || has_non_dot s'
  end.

(** [os.path.splitext]: the extension starts at the last dot of the last
    path component, leading dots of that component apart. *)
Definition splitext (p : string) : string * string :=
  let sepIndex := rfind "/" p in
  let dotIndex := rfind "." p in
  if (sepIndex <? dotIndex)%Z
     && has_non_dot (substring (Z.to_nat (sepIndex + 1))
                               (Z.to_nat (dotIndex - (sepIndex + 1))) p)
  then (slice_to dotIndex p, slice_from dotIndex p)
  else (p, "").

(** [os.path.basename]. *)
Definition basename (p : string) : string := slice_from (rfind "/" p + 1) p.

(** [os.path.join] of two components. *)
Definition path_join (a b : string) : string :=
  match b with
  | String "/" _ => b
  | _ =>
      if bool_decide (a = "") || (rfind "/" a =? Z.of_nat (String.length a) - 1)%Z
      then a +:+ b else a +:+ "/" +:+ b
  end.

Definition ascii_upper (a : ascii) : ascii :=
  let n := nat_of_ascii a in
  if ((97 <=? n) && (n <=? 122))%nat then ascii_of_nat (n - 32) else a.
Definition ascii_lower (a : ascii) : ascii :=
  let n := nat_of_ascii a in
  if ((65 <=? n) && (n <=? 90))%nat then ascii_of_nat (n + 32) else a.

Fixpoint string_map (f : ascii → ascii) (s : string) : string :=
  match s with
  | EmptyString => EmptyString
  | String a s' => String (f a) (string_map f s')
  end.

(** [s.capitalize()]. *)
Definition capitalize (s : string) : string :=
  match s with
  | EmptyString => EmptyString
  | String a s' => String (ascii_upper a) (string_map ascii_lower s')
  end.

(** [s.replace(" ", "_")]. *)
Definition replace_space (s : string) : string :=
  string_map (λ a, if Ascii.eqb a " " then "_"%char else a) s.

(** ** Mapping tables *)

(** [CTargetInfo]: [name], [filepath], the ordered [bones] table of
    (bone name, role) pairs and the [parents] override table.  [name] and
    [parents] hold whatever value the mapping file stores. *)
Record CTargetInfo : Type := mkCTargetInfo {
  info_name : jvalue;
  info_filepath : string;
  info_bones : list (string * string);
  info_parents : jvalue
}.

Definition __init__ (name : string) : CTargetInfo :=
  mkCTargetInfo (JStr name) "None" [] (JDict []).

Definition set_info_bones (bs : list (string * string)) (self : CTargetInfo)
  : CTargetInfo :=
  mkCTargetInfo (info_name self) (info_filepath self) bs (info_parents self).

(** ** The file system *)

(** A regular file holds a JSON document or text that is none; a directory
    lists its entries. *)
Inductive fnode : Type :=
  | File (content : option jstruct)
  | Dir (entries : list string).

(** ** The scene *)

Record Scene : Type := mkScene {
  McpTargetRig : string;
  McpIgnoreHiddenLayers : bool;
  McpSaveTargetTPose : bool
}.

Definition set_McpTargetRig (v : string) (scn : Scene) : Scene :=
  mkScene v (McpIgnoreHiddenLayers scn) (McpSaveTargetTPose scn).

(** ** What the module imports

    [utils], [armature] and [t_pose] are not part of these sources; what
    [target.py] uses of them is a parameter of the development. *)
Class Host : Type := mkHost {
  (** [utils.nameOrNone], applied to every role read from a file; the
      result is the role kept in the table, a string like the bone property
      [McpBone] it is assigned to *)
  nameOrNone : string → string;
  (** the rig predicates of [utils] *)
  isMhxRig : Rig → bool;
  isMakeHuman : Rig → bool;
  isRigify2 : Rig → bool;
  isRigify : Rig → bool;
  isMhx7Rig : Rig → bool;
  isGenesis12 : Rig → bool;
  isGenesis38 : Rig → bool;
  (** [utils.setCategory] and [utils.clearCategory] on the state of [utils] *)
  UtilsState : Type;
  setCategory : string → UtilsState → UtilsState;
  clearCategory : UtilsState → UtilsState;
  (** [armature.validBone] *)
  validBone : PoseBone → bool;
  (** [CArmature().findArmature(rig, ignoreHiddenLayers=b)]: the armature
      description, and the rig with the roles it has assigned *)
  CArmature : Type;
  findArmature : Rig → bool → outcome CArmature * Rig;
  (** the lines [amt.display(s)] prints *)
  display : CArmature → string → list string;
  (** the document [t_pose.saveTPose] writes for an armature *)
  tposeStruct : Rig → jstruct;
  (** [os.path.dirname(__file__)] *)
  module_dir : string
}.

Section target.
Context `{host : Host}.

(** ** The world the module runs in *)

(** [object]: the armature the functions receive as [rig] (the active
    object); [scene]: [context.scene]; [_targetInfo]: the module's
    registry, a dict in insertion order; [McpTargetRig_items]: the items of
    the enumerated scene setting [McpTargetRig]; [stdout]: the texts
    printed so far, one per [print]. *)
Record World : Type := mkWorld {
  object : Rig;
  scene : Scene;
  _targetInfo : list (string * CTargetInfo);
  files : gmap string fnode;
  McpTargetRig_items : list (string * string * string);
  stdout : list string;
  utils : UtilsState
}.

Definition set_object (v : Rig) (w : World) : World :=
  mkWorld v (scene w) (_targetInfo w) (files w) (McpTargetRig_items w)
          (stdout w) (utils w).
Definition set_scene (v : Scene) (w : World) : World :=
  mkWorld (object w) v (_targetInfo w) (files w) (McpTargetRig_items w)
          (stdout w) (utils w).
Definition set__targetInfo (v : list (string * CTargetInfo)) (w : World) : World :=
  mkWorld (object w) (scene w) v (files w) (McpTargetRig_items w)
          (stdout w) (utils w).
Definition set_files (v : gmap string fnode) (w : World) : World :=
  mkWorld (object w) (scene w) (_targetInfo w) v (McpTargetRig_items w)
          (stdout w) (utils w).
Definition set_McpTargetRig_items (v : list (string * string * string))
    (w : World) : World :=
  mkWorld (object w) (scene w) (_targetInfo w) (files w) v (stdout w) (utils w).
Definition set_stdout (v : list string) (w : World) : World :=
  mkWorld (object w) (scene w) (_targetInfo w) (files w) (McpTargetRig_items w)
          v (utils w).
Definition set_utils (v : UtilsState) (w : World) : World :=
  mkWorld (object w) (scene w) (_targetInfo w) (files w) (McpTargetRig_items w)
          (stdout w) v.

Definition bones_of (w : World) : list PoseBone := pose_bones (object w).
Definition set_bones (bs : list PoseBone) (w : World) : World :=
  set_object (set_pose_bones bs (object w)) w.

(** [print(text)]. *)
Definition print (text : string) : M World unit :=
  modify (λ w, set_stdout (stdout w ++ [text]) w).

(** An attribute assignment on the bone at position [i]. *)
Definition update_bone (i : nat) (f : PoseBone → PoseBone) : M World unit :=
  modify (λ w, set_bones (alter f i (bones_of w)) w).

(** [for pb in rig.pose.bones: body]: the body receives the position of
    the bone and the bone as it is when its turn comes. *)
Definition for_bones (body : nat → PoseBone → M World unit) : M World unit :=
  n ← gets (λ w, length (bones_of w));
  for_ (seq 0 n) (λ i,
    bs ← gets bones_of;
    match bs !! i with
    | Some pb => body i pb
    | None => mret tt
    end).

(** ** Methods that assign to [self]

    They run on the pair of the object and the world. *)
Definition Method (A : Type) : Type := M (CTargetInfo * World) A.

Definition liftW {A} (m : M World A) : Method A := λ '(self, w),
  let '(r, w') := m w in (r, (self, w')).
Definition self_ : Method CTargetInfo := gets fst.
Definition assign (f : CTargetInfo → CTargetInfo) : Method unit :=
  modify (λ '(self, w), (f self, w)).

(** A method called on an object no one else holds: the object after the
    call, when the call returns. *)
Definition call_on_new (self : CTargetInfo) (m : Method unit) : M World CTargetInfo :=
  λ w, match m (self, w) with
       | (Return _, (self', w')) => (Return self', w')
       | (Raise e, (_, w')) => (Raise e, w')
       | (Diverge, (_, w')) => (Diverge, w')
       end.

(** A method called on the registry's object for [key]: whatever the
    outcome, the registry holds the object as the call left it. *)
Definition call_on_entry {A} (key : string) (m : Method A) : M World A :=
  λ w, match getitem (_targetInfo w) key with
       | None => (Raise (KeyError key), w)
       | Some self =>
           let '(r, (self', w')) := m (self, w) in
           (r, set__targetInfo (setitem (_targetInfo w') key self') w')
       end.

(** ** class CTargetInfo *)

(** [open(filepath, "r")] followed by [json.load]. *)
Definition json_load (filepath : string) : M World jstruct :=
  fs ← gets files;
  match fs !! filepath with
  | Some (File (Some struct)) => mret struct
  | Some (File None) => raise (JSONDecodeError filepath)
  | _ => raise (OSError filepath)
  end.

(** [struct[key]]. *)
Definition struct_getitem {St} (struct : jstruct) (key : string) : M St jvalue :=
  match getitem struct key with
  | Some v => mret v
  | None => raise (KeyError key)
  end.

(** [v.items()]. *)
Definition items {St} (v : jvalue) : M St (list (string * string)) :=
  match v with
  | JDict d => mret d
  | JStr _ => raise (AttributeError "'str' object has no attribute 'items'")
  end.

Definition readFile (filepath : string) : Method unit :=
  liftW (print ("Read target file " +:+ filepath));;
  assign (λ self, mkCTargetInfo (info_name self) filepath (info_bones self)
                                (info_parents self));;
  struct ← liftW (json_load filepath);
  name ← struct_getitem struct "name";
  assign (λ self, mkCTargetInfo name (info_filepath self) (info_bones self)
                                (info_parents self));;
  bones ← struct_getitem struct "bones";
  kvs ← items bones;
  assign (set_info_bones ((λ '(key, value), (key, nameOrNone value)) <$> kvs));;
  match getitem struct "parents" with
  | Some parents =>
      assign (λ self, mkCTargetInfo (info_name self) (info_filepath self)
                                    (info_bones self) parents)
  | None => mret tt
  end.

Definition addParents (self : CTargetInfo) : M World unit :=
  for_bones (λ i pb,
    when (truthy (McpBone pb)) (
      update_bone i (set_McpParent "");;
      bs ← gets bones_of;
      match while_par (length bs) bs (parent_of bs pb) with
      | None => diverge
      | Some (Some par_name) => update_bone i (set_McpParent par_name)
      | Some None => mret tt
      end));;
  parents ← items (info_parents self);
  for_ parents (λ '(bname, pname),
    bs ← gets bones_of;
    match bone_index bs bname with
    | Some i => update_bone i (set_McpParent pname)
    | None => raise (KeyError bname)
    end);;
  print "Parents";;
  for_bones (λ i pb,
    when (truthy (McpBone pb))
      (print ("  " +:+ " " +:+ pb_name pb +:+ " " +:+ McpParent pb))).

Definition addAutoBones : Method unit :=
  assign (set_info_bones []);;
  bs ← liftW (gets bones_of);
  for_ bs (λ pb,
    when (truthy (McpBone pb))
      (assign (λ self, set_info_bones
                         (info_bones self ++ [(pb_name pb, McpBone pb)]) self)));;
  self ← self_;
  liftW (addParents self).

Definition addManualBones (self : CTargetInfo) : M World unit :=
  for_bones (λ i pb, update_bone i (set_McpBone ""));;
  for_ (info_bones self) (λ '(bname, mhx),
    bs ← gets bones_of;
    match bone_index bs bname with
    | Some i => update_bone i (set_McpBone mhx)
    | None => print ("  " +:+ " " +:+ bname)
    end);;
  addParents self.

Definition newline : string := String (ascii_of_nat 10) EmptyString.

(** The text of the warning [testRig] prints for the armature [rig_name]
    and the table [name]. *)
Definition mismatch_warning (rig_name name : string) : string :=
  "WARNING:" +:+ newline +:+ "Target armature " +:+ rig_name
  +:+ " does not match armature " +:+ name +:+ "." +:+ newline +:+ "Bones:".

(** The [for] loop of [testRig] over the pairs still to test; the first
    bone that is missing or not valid prints the warning and returns. *)
Fixpoint testRig_for (self : CTargetInfo) (name : string)
    (pairs : list (string * string)) : M World unit :=
  match pairs with
  | [] => mret tt
  | (bname, mhxname) :: pairs' =>
      bs ← gets bones_of;
      rig ← gets object;
      let pb := i ← bone_index bs bname; bs !! i in
      if match pb with
         | None => true
         | Some pb => negb (validBone pb)
         end
      then
        print ("  Did not find bone " +:+ bname +:+ " (" +:+ mhxname +:+ ")");;
        print (mismatch_warning (rig_name rig) name);;
        for_ (info_bones self) (λ pair,
          print ("  " +:+ pair.1 +:+ " : " +:+ pair.2))
      else testRig_for self name pairs'
  end.

(** [testRig] returns [None] on every path. *)
Definition testRig (self : CTargetInfo) (name : string) : M World unit :=
  print ("Testing " +:+ name);;
  testRig_for self name (info_bones self).

(** ** Global variables *)

Definition getTargetInfo (rigname : string) : M World CTargetInfo :=
  reg ← gets _targetInfo;
  match getitem reg rigname with
  | Some info => mret info
  | None => raise (KeyError rigname)
  end.

Definition loadTargets : M World unit := modify (set__targetInfo []).

Definition isTargetInited : M World bool :=
  reg ← gets _targetInfo;
  mret (match reg with [] => false | _ :: _ => true end).

(** ** Target initialization *)

(** [os.listdir(path)]. *)
Definition listdir (path : string) : M World (list string) :=
  fs ← gets files;
  match fs !! path with
  | Some (Dir entries) => mret entries
  | _ => raise (OSError path)
  end.

(** [os.path.isfile(path)]. *)
Definition isfile (path : string) : M World bool :=
  fs ← gets files;
  mret (match fs !! path with Some (File _) => true | _ => false end).

(** [_targetInfo[key] = info] for the key a file stores as its name. *)
Definition registry_setitem (key : jvalue) (info : CTargetInfo) : M World unit :=
  match key with
  | JStr k => modify (λ w, set__targetInfo (setitem (_targetInfo w) k info) w)
  | JDict _ => raise (TypeError "unhashable type: 'dict'")
  end.

Definition initTargets : M World unit :=
  modify (set__targetInfo [("Automatic", __init__ "Automatic")]);;
  let path := path_join module_dir "target_rigs" in
  fnames ← listdir path;
  for_ fnames (λ fname,
    let filepath := path_join path fname in
    let '(name, ext) := splitext fname in
    is_file ← isfile filepath;
    when (bool_decide (ext = ".json") && is_file) (
      info ← call_on_new (__init__ "Manual") (readFile filepath);
      registry_setitem (info_name info) info));;
  reg ← gets _targetInfo;
  let keys := merge_sort String.le reg.*1 in
  let enums := (λ key, (key, key, key)) <$> keys in
  modify (set_McpTargetRig_items enums);;
  print "Defined McpTargetRig".

Definition ensureTargetInited : M World unit :=
  inited ← isTargetInited;
  when (negb inited) initTargets.

(** ** Identifying the target rig *)

Definition guessTargetArmatureFromList : M World string :=
  ensureTargetInited;;
  print "Guessing target";;
  rig ← gets object;
  if isMhxRig rig then mret "MHX"
  else if isMakeHuman rig then mret "Makehuman"
  else if isRigify2 rig then mret "Rigify 2"
  else if isRigify rig then mret "Rigify"
  else if isMhx7Rig rig then mret "MH-alpha7"
  else if isGenesis12 rig then mret "Genesis 1,2"
  else if isGenesis38 rig then mret "Genesis 3,8"
  else mret "Automatic".

Definition getTargetArmature : M World CTargetInfo :=
  modify (λ w, set_utils (setCategory "Identify Target Rig" (utils w)) w);;
  ensureTargetInited;;
  selected ← gets (λ w, McpTargetRig (scene w));
  name ← (if bool_decide (selected = "Automatic")
          then guessTargetArmatureFromList
          else mret selected);
  if bool_decide (name = "Automatic") then
    modify (λ w, set_utils (setCategory "Automatic Target Rig" (utils w)) w);;
    amt ← (λ w, let '(r, rig') :=
                  findArmature (object w) (McpIgnoreHiddenLayers (scene w)) in
                (r, set_object rig' w));
    modify (λ w, set_scene (set_McpTargetRig "Automatic" (scene w)) w);;
    for_ (display amt "Target") print;;
    modify (λ w, set__targetInfo (setitem (_targetInfo w) name (__init__ name)) w);;
    call_on_entry name addAutoBones;;
    modify (λ w, set_object (set_McpTPoseFile "" (object w)) w);;
    modify (λ w, set_utils (clearCategory (utils w)) w);;
    getTargetInfo name
  else
    modify (λ w, set_utils (setCategory "Manual Target Rig" (utils w)) w);;
    modify (λ w, set_scene (set_McpTargetRig name (scene w)) w);;
    info ← getTargetInfo name;
    testRig info name;;
    print ("Target armature " +:+ name);;
    addManualBones info;;
    modify (λ w, set_utils (clearCategory (utils w)) w);;
    mret info.

Definition findTargetKeys (mhx : string) (pairs : list (string * string))
  : list string :=
  (filter (λ p, p.2 = mhx) pairs).*1.

(** ** Saving a target file *)

(** Modelled from the spec: [saveJson] of the repository's [json] module is
    not among the sources.  Following section 6 (a save operation producing
    a mapping file) it writes the structure as one JSON document at
    [filepath]. *)
Definition saveJson (struct : jstruct) (filepath : string) : M World unit :=
  modify (λ w, set_files (<[filepath := File (Some struct)]> (files w)) w).

(** Modelled from the spec: [saveTPose] of the repository's [t_pose] module
    is not among the sources, and section 1 leaves T-pose files out of
    scope; all that is kept of it is that it writes one document,
    [tposeStruct rig], at the path it is given. *)
Definition saveTPose (filepath : string) : M World unit :=
  rig ← gets object;
  saveJson (tposeStruct rig) filepath.

Definition saveTargetFile (filepath : string) : M World unit :=
  rig ← gets object;
  scn ← gets scene;
  let '(fname, ext) := splitext filepath in
  let name := replace_space (capitalize (basename fname)) in
  let arm := foldl (λ arm pb,
               if truthy (McpBone pb)
               then setitem arm (pb_name pb) (McpBone pb) else arm)
             [] (pose_bones rig) in
  let struct := [("name", JStr name); ("url", JStr ""); ("armature", JDict arm)] in
  let filepath := fname +:+ ".json" in
  saveJson struct filepath;;
  print ("Saved " +:+ filepath);;
  when (McpSaveTargetTPose scn) (
    let tposePath := fname +:+ "-tpose.json" in
    saveTPose tposePath).

End target.

(** ** Specifications

    What the claims about the module say, in terms independent of the
    loops above. *)

(** Name, parent link and role: all that [addParents] reads of a bone. *)
Definition skel (pb : PoseBone) : string * option nat * string :=
  (pb_name pb, pb_parent pb, McpBone pb).

(** The bone [k] parent steps above [pb]. *)
Fixpoint nth_ancestor (bones : list PoseBone) (k : nat) (pb : PoseBone)
  : option PoseBone :=
  match k with
  | O => Some pb
  | S k' => a ← parent_of bones pb; nth_ancestor bones k' a
  end.

(** [a_name] names the nearest proper ancestor of [pb] that carries a role:
    every ancestor strictly between the two has none. *)
Definition nearest_mapped_ancestor (bones : list PoseBone) (pb : PoseBone)
    (a_name : string) : Prop :=
  ∃ k a, nth_ancestor bones (S k) pb = Some a ∧ McpBone a ≠ "" ∧
         pb_name a = a_name ∧
         ∀ j b, j < k → nth_ancestor bones (S j) pb = Some b → McpBone b = "".

(** No proper ancestor of [pb] carries a role. *)
Definition no_mapped_ancestor (bones : list PoseBone) (pb : PoseBone) : Prop :=
  ∀ k a, nth_ancestor bones (S k) pb = Some a → McpBone a = "".

(** The value a table assigns to [key] when its pairs are applied in order:
    that of the last pair for [key]. *)
Fixpoint override_of {V} (d : list (string * V)) (key : string) : option V :=
  match d with
  | [] => None
  | (k, v) :: d' =>
      match override_of d' key with
      | Some v' => Some v'
      | None => if String.eqb k key then Some v else None
      end
  end.

(** The parent-role of [pb] is resolved with respect to the override table
    [d]: the table's value when it lists the bone, else the nearest
    role-bearing ancestor, else empty. *)
Definition parent_role_resolved (bones : list PoseBone)
    (d : list (string * string)) (pb : PoseBone) : Prop :=
  match override_of d (pb_name pb) with
  | Some pname => McpParent pb = pname
  | None =>
      nearest_mapped_ancestor bones pb (McpParent pb) ∨
      (no_mapped_ancestor bones pb ∧ McpParent pb = "")
  end.

(** The bones after the assignments [bones[k].attr = v] of a table, names
    that are not bones skipped. *)
Fixpoint assign_all (set : string → PoseBone → PoseBone)
    (d : list (string * string)) (bs : list PoseBone) : list PoseBone :=
  match d with
  | [] => bs
  | (k, v) :: d' =>
      assign_all set d'
        match bone_index bs k with
        | Some i => alter (set v) i bs
        | None => bs
        end
  end.

(** The dict after the assignments [d[k] = v] of the pairs of [new], in
    order. *)
Definition setitems {V} (d new : list (string * V)) : list (string * V) :=
  foldl (λ d kv, setitem d kv.1 kv.2) d new.

(** The bone [pb] after its turn in the first loop of [addParents] over the
    bones [bs]. *)
Definition addParents_step (bs : list PoseBone) (pb : PoseBone) : PoseBone :=
  if truthy (McpBone pb) then
    match while_par (length bs) bs (parent_of bs pb) with
    | Some (Some par_name) => set_McpParent par_name pb
    | _ => set_McpParent "" pb
    end
  else pb.

(** The role-bearing bones of an armature, as (bone name, role) pairs. *)
Definition role_pairs (bones : list PoseBone) : list (string * string) :=
  (λ pb, (pb_name pb, McpBone pb)) <$> filter (λ pb, McpBone pb ≠ "") bones.

Section specification.
Context `{host : Host}.

(** The rig kinds in the order section 4 fixes for guessing. *)
Definition rig_kind_checks : list ((Rig → bool) * string) :=
  [ (isMhxRig, "MHX"); (isMakeHuman, "Makehuman"); (isRigify2, "Rigify 2");
    (isRigify, "Rigify"); (isMhx7Rig, "MH-alpha7");
    (isGenesis12, "Genesis 1,2"); (isGenesis38, "Genesis 3,8") ].

(** The name of the first check that holds, or the fallback sentinel. *)
Definition first_matching_kind (rig : Rig) : string :=
  match List.find (λ c : (Rig → bool) * string, c.1 rig) rig_kind_checks with
  | Some c => c.2
  | None => "Automatic"
  end.

Definition target_rigs : string := path_join module_dir "target_rigs".

(** A directory entry is a mapping file when its extension is [.json] and
    it is a regular file. *)
Definition is_mapping_file (fs : gmap string fnode) (fname : string) : bool :=
  bool_decide ((splitext fname).2 = ".json") &&
  match fs !! path_join target_rigs fname with
  | Some (File _) => true
  | _ => false
  end.

(** The mapping files of the [target_rigs] directory, in listing order. *)
Definition mapping_files (fs : gmap string fnode) : list string :=
  match fs !! target_rigs with
  | Some (Dir entries) =>
      path_join target_rigs <$>
        filter (λ fname, is_mapping_file fs fname = true) entries
  | _ => []
  end.

(** The name stored inside the file at [filepath]. *)
Definition stored_name (fs : gmap string fnode) (filepath : string)
  : option jvalue :=
  match fs !! filepath with
  | Some (File (Some struct)) => getitem struct "name"
  | _ => None
  end.

(** The file at [filepath] holds a document with a string as name and a
    table of bones. *)
Definition well_formed_mapping_file (fs : gmap string fnode) (filepath : string)
  : Prop :=
  ∃ struct name bones,
    fs !! filepath = Some (File (Some struct)) ∧
    getitem struct "name" = Some (JStr name) ∧
    getitem struct "bones" = Some (JDict bones).

(** The registry entry [entry] is the table read from the file at
    [filepath], under the name the file stores. *)
Definition loaded_from (fs : gmap string fnode) (filepath : string)
    (entry : string * CTargetInfo) : Prop :=
  stored_name fs filepath = Some (JStr entry.1) ∧
  info_name entry.2 = JStr entry.1 ∧
  info_filepath entry.2 = filepath.

(** The registry holds one synthetic ["Automatic"] entry and, besides it,
    one entry per mapping file, keyed by the name the file stores. *)
Definition one_entry_per_file (fs : gmap string fnode)
    (reg : list (string * CTargetInfo)) : Prop :=
  ∃ loaded : list (string * CTargetInfo),
    reg ≡ₚ ("Automatic", __init__ "Automatic") :: loaded ∧
    Forall2 (loaded_from fs) (mapping_files fs) loaded.
End specification.

(** ** Further specifications

    Terms for the properties proved besides the claims. *)

Section registry_specification.
Context `{host : Host}.

(** What [testRig] asks of a bone name: the armature has a bone of that
    name, and the host finds it valid. *)
Definition bone_usable (bones : list PoseBone) (bname : string) : bool :=
  match i ← bone_index bones bname; bones !! i with
  | Some pb => validBone pb
  | None => false
  end.

(** The lines [testRig] prints for the table [self] once it met the pair
    ([bname], [mhxname]) that no usable bone answers. *)
Definition mismatch_report (self : CTargetInfo) (rig_name name : string)
    (bname mhxname : string) : list string :=
  [ "  Did not find bone " +:+ bname +:+ " (" +:+ mhxname +:+ ")";
    mismatch_warning rig_name name ] ++
  ((λ pair, "  " +:+ pair.1 +:+ " : " +:+ pair.2) <$> info_bones self).

(** The registry entry a mapping file gives rise to: its key and its table,
    when the file holds a document with a string as name and a table of
    bones. *)
Definition table_of_file (fs : gmap string fnode) (filepath : string)
  : option (string * CTargetInfo) :=
  match fs !! filepath with
  | Some (File (Some struct)) =>
      match getitem struct "name", getitem struct "bones" with
      | Some (JStr name), Some (JDict bones) =>
          Some (name,
                mkCTargetInfo (JStr name) filepath
                  ((λ kv, (kv.1, nameOrNone kv.2)) <$> bones)
                  (default (JDict []) (getitem struct "parents")))
      | _, _ => None
      end
  | _ => None
  end.

(** The line [readFile] prints for a path. *)
Definition read_line (path : string) : string := "Read target file " +:+ path.
End registry_specification.

(** ** An example host

    Rig predicates that look for one characteristic bone each, and a
    three-bone chain whose middle bone has no role. *)

Definition has_bone (bname : string) (rig : Rig) : bool :=
  bool_decide (is_Some (bone_index (pose_bones rig) bname)).

Definition example_host : Host := {|
  nameOrNone := λ s, s;
  isMhxRig := has_bone "foot.rev.L";
  isMakeHuman := has_bone "risorius03.R";
  isRigify2 := has_bone "MCH-spine.003";
  isRigify := has_bone "MCH-spine.flex";
  isMhx7Rig := has_bone "FootRev_L";
  isGenesis12 := has_bone "abdomen2";
  isGenesis38 := has_bone "abdomenLower";
  UtilsState := string;
  setCategory := λ s _, s;
  clearCategory := λ _, "General error";
  validBone := λ _, true;
  CArmature := unit;
  findArmature := λ rig _, (Return tt, rig);
  display := λ _ _, [];
  tposeStruct := λ _, [];
  module_dir := "/addons/retarget_bvh"
|}.

Definition chain3 : Rig := mkRig "Armature"
  [ mkPoseBone "Hips" None "hips" "";
    mkPoseBone "Twist" (Some 0) "" "";
    mkPoseBone "Spine" (Some 1) "spine" "stale" ] "".

(** A world of the example host; the items of the scene setting are the
    keys of the registry, or the single item [initialize] registers. *)
Definition example_world (rig : Rig) (selected : string)
    (reg : list (string * CTargetInfo)) (fs : gmap string fnode)
  : @World example_host :=
  @mkWorld example_host rig (mkScene selected false true) reg fs
    ((λ key, (key, key, key)) <$>
       match reg with
       | [] => ["Automatic"]
       | _ :: _ => merge_sort String.le reg.*1
       end)
    [] "".

#[global] Instance wf_bones_dec (bones : list PoseBone) : Decision (wf_bones bones).
Proof. unfold wf_bones. apply _. Defined.

(** The chain with empty registry and file system, [McpTargetRig] left at
    ["Automatic"]. *)
Definition chain3_world : @World example_host :=
  example_world chain3 "Automatic" [] ∅.

(** A table for the chain that overrides the parent-role of the leaf. *)
Definition override_table : CTargetInfo :=
  mkCTargetInfo (JStr "Custom") "None"
    [("Hips", "hips"); ("Spine", "spine")] (JDict [("Spine", "Twist")]).

(** A table that lists a bone the chain does not have. *)
Definition partial_table : CTargetInfo :=
  mkCTargetInfo (JStr "Custom") "None"
    [("Hips", "hips"); ("Tail", "tail")] (JDict []).

(** The same table with a parent-role override for the missing bone. *)
Definition mismatch_table : CTargetInfo :=
  mkCTargetInfo (JStr "Custom") "None"
    [("Hips", "hips"); ("Tail", "tail")] (JDict [("Tail", "Hips")]).

(** The chain with a registry that holds [table] as ["Custom"], selected as
    target rig. *)
Definition custom_world (table : CTargetInfo) : @World example_host :=
  example_world chain3 "Custom"
    [("Automatic", __init__ "Automatic"); ("Custom", table)] ∅.

Definition mapping_file (name : string) (bones : list (string * string)) : fnode :=
  File (Some [("name", JStr name); ("bones", JDict bones)]).

(** A [target_rigs] directory with two mapping files of different names, a
    text file and a subdirectory. *)
Definition two_rigs : gmap string fnode :=
  list_to_map
    [ ("/addons/retarget_bvh/target_rigs",
       Dir ["mhx.json"; "readme.txt"; "rigify.json"; "old.json"]);
      ("/addons/retarget_bvh/target_rigs/mhx.json",
       mapping_file "MHX" [("root", "hips")]);
      ("/addons/retarget_bvh/target_rigs/readme.txt", File None);
      ("/addons/retarget_bvh/target_rigs/rigify.json",
       mapping_file "Rigify" [("torso", "hips")]);
      ("/addons/retarget_bvh/target_rigs/old.json", Dir []) ].

(** A [target_rigs] directory whose two mapping files store the same
    name. *)
Definition same_name_rigs : gmap string fnode :=
  list_to_map
    [ ("/addons/retarget_bvh/target_rigs", Dir ["a.json"; "b.json"]);
      ("/addons/retarget_bvh/target_rigs/a.json",
       mapping_file "Custom" [("Hips", "hips")]);
      ("/addons/retarget_bvh/target_rigs/b.json",
       mapping_file "Custom" [("Pelvis", "hips")]) ].

(** The chain with a registry that holds the synthetic entry only,
    [McpTargetRig] at [selected]. *)
Definition inited_world (selected : string) : @World example_host :=
  example_world chain3 selected [("Automatic", __init__ "Automatic")] ∅.


(** A host whose search for roles gives up on an armature without a bone
    called ["Hips"]. *)
Definition strict_host : Host := {|
  nameOrNone := λ s, s;
  isMhxRig := has_bone "foot.rev.L";
  isMakeHuman := has_bone "risorius03.R";
  isRigify2 := has_bone "MCH-spine.003";
  isRigify := has_bone "MCH-spine.flex";
  isMhx7Rig := has_bone "FootRev_L";
  isGenesis12 := has_bone "abdomen2";
  isGenesis38 := has_bone "abdomenLower";
  UtilsState := string;
  setCategory := λ s _, s;
  clearCategory := λ _, "General error";
  validBone := λ _, true;
  CArmature := unit;
  findArmature := λ rig _,
    if has_bone "Hips" rig then (Return tt, rig)
    else (Raise (MocapError "Did not find the hips"), rig);
  display := λ _ _, [];
  tposeStruct := λ _, [];
  module_dir := "/addons/retarget_bvh"
|}.

(** An armature without bones in a world of the strict host, the registry
    holding the synthetic entry. *)
Definition boneless_world : @World strict_host :=
  @mkWorld strict_host (mkRig "Empty" [] "") (mkScene "Automatic" false true)
    [("Automatic", __init__ "Automatic")] ∅
    [("Automatic", "Automatic", "Automatic")] [] "".

(** A mapping file whose ["parents"] member is a string. *)
Definition string_parents_rigs : gmap string fnode :=
  list_to_map
    [ ("/addons/retarget_bvh/target_rigs/odd.json",
       File (Some [("name", JStr "Odd"); ("bones", JDict [("Hips", "hips")]);
                   ("parents", JStr "Hips")])) ].

(** An armature the first check recognises, no role assigned yet, and a
    world whose registry holds the table for its kind. *)
Definition mhx_rig : Rig := mkRig "Human"
  [ mkPoseBone "root" None "" "";
    mkPoseBone "foot.rev.L" (Some 0) "" "" ] "".

Definition mhx_table : CTargetInfo :=
  mkCTargetInfo (JStr "MHX") "/addons/retarget_bvh/target_rigs/mhx.json"
    [("root", "hips")] (JDict []).

Definition mhx_world : @World example_host :=
  example_world mhx_rig "Automatic"
    [("Automatic", __init__ "Automatic"); ("MHX", mhx_table)] ∅.

(** * Proofs *)

Set Warnings "-clear-no-such-hyp".

(** ** The monad *)

Lemma bind_Return {St A B} (m : M St A) (f : A → M St B) s a s' :
  m s = (Return a, s') → (m ≫= f) s = f a s'.
Proof. intros Hm. unfold mbind, M_bind. by rewrite Hm. Qed.

Lemma bind_Raise {St A B} (m : M St A) (f : A → M St B) s e s' :
  m s = (Raise e, s') → (m ≫= f) s = (Raise e, s').
Proof. intros Hm. unfold mbind, M_bind. by rewrite Hm. Qed.

Lemma bind_Diverge {St A B} (m : M St A) (f : A → M St B) s s' :
  m s = (Diverge, s') → (m ≫= f) s = (Diverge, s').
Proof. intros Hm. unfold mbind, M_bind. by rewrite Hm. Qed.

Lemma truthy_true s : truthy s = true ↔ s ≠ "".
Proof. unfold truthy. by rewrite bool_decide_eq_true. Qed.

Lemma truthy_false s : truthy s = false ↔ s = "".
Proof.
  unfold truthy. rewrite bool_decide_eq_false. split; [|naive_solver].
  intros Hs. by destruct (decide (s = "")).
Qed.

(** ** Parent chains *)

Lemma skel_lookup (bs1 bs2 : list PoseBone) (i : nat) :
  skel <$> bs1 = skel <$> bs2 → skel <$> (bs1 !! i) = skel <$> (bs2 !! i).
Proof. intros Hs. by rewrite <- !list_lookup_fmap, Hs. Qed.

Lemma skel_length (bs1 bs2 : list PoseBone) :
  skel <$> bs1 = skel <$> bs2 → length bs1 = length bs2.
Proof. intros Hs. by rewrite <- (length_fmap skel bs1), Hs, length_fmap. Qed.

Lemma skel_parent_of (bs1 bs2 : list PoseBone) pb1 pb2 :
  skel <$> bs1 = skel <$> bs2 → skel pb1 = skel pb2 →
  skel <$> parent_of bs1 pb1 = skel <$> parent_of bs2 pb2.
Proof.
  intros Hs Hpb. unfold parent_of.
  assert (pb_parent pb1 = pb_parent pb2) as -> by (unfold skel in Hpb; congruence).
  destruct (pb_parent pb2) as [p|]; simpl; [by apply skel_lookup | done].
Qed.

Lemma while_par_skel fuel (bs1 bs2 : list PoseBone) o1 o2 :
  skel <$> bs1 = skel <$> bs2 → skel <$> o1 = skel <$> o2 →
  while_par fuel bs1 o1 = while_par fuel bs2 o2.
Proof.
  intros Hs. revert o1 o2.
  induction fuel as [|fuel IH]; intros [b1|] [b2|] Ho; try done.
  - assert (skel b1 = skel b2) as Hsk by (simpl in Ho; congruence).
    injection Hsk as Hn Hp Hr. simpl. by rewrite Hn, Hr.
  - assert (skel b1 = skel b2) as Hsk by (simpl in Ho; congruence).
    pose proof Hsk as Hsk'. injection Hsk' as Hn Hp Hr. simpl. rewrite Hn, Hr.
    destruct (truthy (McpBone b2)); [done|].
    apply IH. by apply skel_parent_of.
Qed.

Lemma while_par_terminates fuel bs par :
  reaches_root fuel bs par = true →
  is_Some (while_par fuel bs (p ← par; bs !! p)).
Proof.
  revert par. induction fuel as [|fuel IH]; intros [p|] Hr; simpl in *;
    try done; try by eexists.
  destruct (bs !! p) as [b|] eqn:Hb; [|done]. simpl.
  destruct (truthy (McpBone b)); [by eexists|].
  by apply IH.
Qed.

Lemma while_par_found fuel bs o nm :
  while_par fuel bs o = Some (Some nm) →
  ∃ k a, (o ≫= nth_ancestor bs k) = Some a ∧ McpBone a ≠ "" ∧ pb_name a = nm ∧
         ∀ j b, j < k → (o ≫= nth_ancestor bs j) = Some b → McpBone b = "".
Proof.
  revert o. induction fuel as [|fuel IH]; intros [b|] Hw; simpl in Hw; try done.
  - destruct (truthy (McpBone b)) eqn:Ht; [|done]. simplify_eq.
    exists 0, b. split_and!; [done|by apply truthy_true|done|lia].
  - destruct (truthy (McpBone b)) eqn:Ht.
    + simplify_eq. exists 0, b. split_and!; [done|by apply truthy_true|done|lia].
    + destruct (IH _ Hw) as (k & a & Ha & Hrole & Hnm & Hbelow).
      exists (S k), a. split_and!; try done.
      intros [|j] c Hj Hc; simpl in Hc.
      * simplify_eq. by apply truthy_false.
      * apply (Hbelow j); [lia|done].
Qed.

Lemma while_par_none fuel bs o :
  while_par fuel bs o = Some None →
  ∀ k a, (o ≫= nth_ancestor bs k) = Some a → McpBone a = "".
Proof.
  revert o. induction fuel as [|fuel IH]; intros [b|] Hw k a Ha;
    simpl in Hw, Ha; try done.
  - by destruct (truthy (McpBone b)).
  - destruct (truthy (McpBone b)) eqn:Ht; [done|].
    destruct k as [|k]; simpl in Ha.
    + simplify_eq. by apply truthy_false.
    + by apply (IH _ Hw k).
Qed.

(** ** The world *)

Section world_lemmas.
Context `{host : Host}.
Implicit Types (w : World) (bs : list PoseBone).

Lemma bones_of_set_bones bs w : bones_of (set_bones bs w) = bs.
Proof. done. Qed.

Lemma set_bones_set_bones bs bs' w :
  set_bones bs (set_bones bs' w) = set_bones bs w.
Proof. done. Qed.

Lemma set_bones_id w : set_bones (bones_of w) w = w.
Proof. by destruct w as [[] ? ? ? ? ? ?]. Qed.

Lemma set_stdout_id w : set_stdout (stdout w ++ []) w = w.
Proof. rewrite app_nil_r. by destruct w. Qed.

Lemma set_stdout_set_stdout out out' w :
  set_stdout (stdout (set_stdout (stdout w ++ out) w) ++ out')
             (set_stdout (stdout w ++ out) w)
  = set_stdout (stdout w ++ (out ++ out')) w.
Proof. simpl. by rewrite app_assoc. Qed.

(** A loop over the bones whose turn for a bone alters that bone alone
    maps the alteration over the bones. *)
Lemma for_seq_alter (body : nat → PoseBone → M World unit)
    (g : PoseBone → PoseBone) (Inv : list PoseBone → Prop) :
  (∀ bs i, Inv bs → Inv (alter g i bs)) →
  (∀ w i pb, Inv (bones_of w) → bones_of w !! i = Some pb →
             body i pb w = (Return tt, set_bones (alter g i (bones_of w)) w)) →
  ∀ m k w, Inv (bones_of w) → k + m = length (bones_of w) →
    for_ (seq k m) (λ i, bs ← gets bones_of;
                         match bs !! i with
                         | Some pb => body i pb
                         | None => mret tt
                         end) w
    = (Return tt,
       set_bones (take k (bones_of w) ++ (g <$> drop k (bones_of w))) w).
Proof.
  intros Hinv Hbody m. induction m as [|m IH]; intros k w HI Hlen; simpl.
  - rewrite take_ge, drop_ge by lia. simpl. rewrite app_nil_r.
    by rewrite set_bones_id.
  - destruct (lookup_lt_is_Some_2 (bones_of w) k) as [pb Hpb]; [lia|].
    unfold mbind at 1, M_bind. unfold mbind at 1, M_bind. simpl.
    rewrite Hpb, (Hbody w k pb HI Hpb).
    rewrite (IH (S k)); rewrite ?bones_of_set_bones, ?length_alter;
      [|by apply Hinv|lia].
    rewrite set_bones_set_bones. f_equal. f_equal.
    rewrite take_alter_lt, drop_alter_lt by lia.
    rewrite (take_S_r _ _ _ Hpb), (drop_S _ _ _ Hpb).
    rewrite alter_app_r_alt by (rewrite length_take; lia).
    rewrite length_take, Nat.min_l by lia. rewrite Nat.sub_diag. simpl.
    by rewrite <- app_assoc.
Qed.

Lemma for_bones_alter (body : nat → PoseBone → M World unit)
    (g : PoseBone → PoseBone) (Inv : list PoseBone → Prop) :
  (∀ bs i, Inv bs → Inv (alter g i bs)) →
  (∀ w i pb, Inv (bones_of w) → bones_of w !! i = Some pb →
             body i pb w = (Return tt, set_bones (alter g i (bones_of w)) w)) →
  ∀ w, Inv (bones_of w) →
    for_bones body w = (Return tt, set_bones (g <$> bones_of w) w).
Proof.
  intros Hinv Hbody w HI. unfold for_bones.
  unfold mbind at 1, M_bind. simpl.
  by rewrite (for_seq_alter body g Inv Hinv Hbody _ 0 w HI).
Qed.

(** A loop over the bones that only prints leaves everything but the
    output as it was. *)
Lemma for_seq_print (body : nat → PoseBone → M World unit) :
  (∀ w i pb, ∃ out, body i pb w = (Return tt, set_stdout (stdout w ++ out) w)) →
  ∀ m k w, ∃ out,
    for_ (seq k m) (λ i, bs ← gets bones_of;
                         match bs !! i with
                         | Some pb => body i pb
                         | None => mret tt
                         end) w
    = (Return tt, set_stdout (stdout w ++ out) w).
Proof.
  intros Hbody m. induction m as [|m IH]; intros k w; simpl.
  - exists []. by rewrite set_stdout_id.
  - unfold mbind at 1, M_bind. unfold mbind at 1, M_bind. simpl.
    destruct (bones_of w !! k) as [pb|].
    + destruct (Hbody w k pb) as [out ->].
      destruct (IH (S k) (set_stdout (stdout w ++ out) w)) as [out' Hout'].
      exists (out ++ out')%list. etrans; [apply Hout'|].
      by rewrite set_stdout_set_stdout.
    + unfold mret, M_ret. apply IH.
Qed.

Lemma for_bones_print (body : nat → PoseBone → M World unit) :
  (∀ w i pb, ∃ out, body i pb w = (Return tt, set_stdout (stdout w ++ out) w)) →
  ∀ w, ∃ out, for_bones body w = (Return tt, set_stdout (stdout w ++ out) w).
Proof.
  intros Hbody w. unfold for_bones. unfold mbind at 1, M_bind. simpl.
  apply (for_seq_print body Hbody).
Qed.
End world_lemmas.

(** ** Bone lookup by name *)

Lemma bone_index_names (bs : list PoseBone) k :
  bone_index bs k = fst <$> list_find (λ n, n = k) (pb_name <$> bs).
Proof.
  unfold bone_index. rewrite list_find_fmap.
  by destruct (list_find _ bs) as [[? ?]|].
Qed.

Lemma bone_index_same_names (bs1 bs2 : list PoseBone) k :
  pb_name <$> bs1 = pb_name <$> bs2 → bone_index bs1 k = bone_index bs2 k.
Proof. intros Hn. by rewrite !bone_index_names, Hn. Qed.

Lemma bone_index_Some (bs : list PoseBone) k i :
  bone_index bs k = Some i → ∃ pb, bs !! i = Some pb ∧ pb_name pb = k.
Proof.
  unfold bone_index. intros ([j pb] & Hf & ->)%fmap_Some.
  apply list_find_Some in Hf as (? & ? & _). eauto.
Qed.

Lemma bone_index_NoDup (bs : list PoseBone) i pb :
  NoDup (pb_name <$> bs) → bs !! i = Some pb → bone_index bs (pb_name pb) = Some i.
Proof.
  intros Hnd Hi. unfold bone_index.
  rewrite (proj2 (list_find_Some _ bs i pb)); [done|].
  split_and!; [done..|]. intros j y Hj Hlt Hy.
  assert (i = j); [|lia].
  apply (NoDup_lookup _ _ _ (pb_name pb) Hnd); rewrite list_lookup_fmap.
  - by rewrite Hi.
  - by rewrite Hj, <- Hy.
Qed.

Lemma names_alter (f : PoseBone → PoseBone) (bs : list PoseBone) i :
  (∀ pb, pb_name (f pb) = pb_name pb) →
  pb_name <$> alter f i bs = pb_name <$> bs.
Proof.
  intros Hf. rewrite (list_fmap_alter pb_name f id).
  - by apply list_alter_id.
  - by apply Forall_forall.
Qed.

Lemma skel_alter (f : PoseBone → PoseBone) (bs : list PoseBone) i :
  (∀ pb, skel (f pb) = skel pb) → skel <$> alter f i bs = skel <$> bs.
Proof.
  intros Hf. rewrite (list_fmap_alter skel f id).
  - by apply list_alter_id.
  - by apply Forall_forall.
Qed.

Lemma skel_names (bs1 bs2 : list PoseBone) :
  skel <$> bs1 = skel <$> bs2 → pb_name <$> bs1 = pb_name <$> bs2.
Proof.
  intros Hs.
  assert (∀ bs : list PoseBone, pb_name <$> bs = (λ s, s.1.1) <$> (skel <$> bs)) as Hn.
  { intros bs. rewrite <- list_fmap_compose. done. }
  by rewrite !Hn, Hs.
Qed.

Lemma alter_fixed {A} (f : A → A) (l : list A) i x :
  l !! i = Some x → f x = x → alter f i l = l.
Proof.
  intros Hi Hx. rewrite <- (list_alter_id id l i) at 2 by done.
  apply list_alter_ext; [|done]. intros y Hy. by simplify_eq.
Qed.

(** ** The assignments of a table *)

Lemma assign_all_skel d (bs : list PoseBone) :
  skel <$> assign_all set_McpParent d bs = skel <$> bs.
Proof.
  revert bs. induction d as [|[k v] d IH]; intros bs; simpl; [done|].
  rewrite IH. destruct (bone_index bs k); [|done].
  by apply skel_alter.
Qed.

Lemma assign_all_lookup set d (bs : list PoseBone) i pb :
  (∀ v pb, pb_name (set v pb) = pb_name pb) →
  (∀ v v' pb, set v (set v' pb) = set v pb) →
  NoDup (pb_name <$> bs) → bs !! i = Some pb →
  assign_all set d bs !! i
  = Some (from_option (λ v, set v pb) pb (override_of d (pb_name pb))).
Proof.
  intros Hname Hidem. revert bs pb.
  induction d as [|[k v] d IH]; intros bs pb Hnd Hi; simpl; [done|].
  set (bs1 := match bone_index bs k with
              | Some j => alter (set v) j bs
              | None => bs
              end).
  set (pb1 := if String.eqb k (pb_name pb) then set v pb else pb).
  assert (pb_name <$> bs1 = pb_name <$> bs) as Hn1.
  { unfold bs1. destruct (bone_index bs k); [|done]. by apply names_alter. }
  assert (bs1 !! i = Some pb1) as Hi1.
  { unfold bs1, pb1. destruct (String.eqb_spec k (pb_name pb)) as [->|Hne].
    - rewrite (bone_index_NoDup bs i pb Hnd Hi).
      by rewrite list_lookup_alter_eq, Hi.
    - destruct (bone_index bs k) as [j|] eqn:Hj; [|done].
      rewrite list_lookup_alter_ne; [done|]. intros ->.
      apply bone_index_Some in Hj as (pb' & ? & ?). by simplify_eq. }
  assert (pb_name pb1 = pb_name pb) as Hpb1.
  { unfold pb1. by destruct (String.eqb k (pb_name pb)). }
  rewrite (IH bs1 pb1), Hpb1; [|by rewrite Hn1|done].
  destruct (override_of d (pb_name pb)) as [v'|]; simpl.
  - unfold pb1. destruct (String.eqb k (pb_name pb)); by rewrite ?Hidem.
  - unfold pb1. by destruct (String.eqb k (pb_name pb)).
Qed.

(** ** [addParents] *)

Lemma addParents_step_skel bs0 pb : skel (addParents_step bs0 pb) = skel pb.
Proof.
  unfold addParents_step. destruct (truthy (McpBone pb)); [|done].
  by destruct (while_par _ _ _) as [[?|]|].
Qed.

Lemma addParents_step_skel_map bs0 (bs : list PoseBone) :
  skel <$> (addParents_step bs0 <$> bs) = skel <$> bs.
Proof.
  rewrite <- list_fmap_compose. apply list_fmap_ext.
  intros ? pb _. apply addParents_step_skel.
Qed.

Lemma wf_bones_terminates (bs0 : list PoseBone) i pb0 pb :
  wf_bones bs0 → bs0 !! i = Some pb0 → skel pb = skel pb0 →
  is_Some (while_par (length bs0) bs0 (parent_of bs0 pb)).
Proof.
  intros [_ Hwf] Hi Hsk. unfold parent_of.
  apply while_par_terminates.
  assert (pb_parent pb = pb_parent pb0) as -> by (unfold skel in Hsk; congruence).
  apply (proj1 (Forall_forall _ _) Hwf). by eapply list_elem_of_lookup_2.
Qed.

Section addParents_lemmas.
Context `{host : Host}.
Implicit Types (w : World) (bs : list PoseBone).

(** The first loop resolves every role-bearing bone. *)
Lemma addParents_walk w :
  wf_bones (bones_of w) →
  for_bones (λ i pb,
    when (truthy (McpBone pb)) (
      update_bone i (set_McpParent "");;
      bs ← gets bones_of;
      match while_par (length bs) bs (parent_of bs pb) with
      | None => diverge
      | Some (Some par_name) => update_bone i (set_McpParent par_name)
      | Some None => mret tt
      end)) w
  = (Return tt, set_bones (addParents_step (bones_of w) <$> bones_of w) w).
Proof.
  intros Hwf. set (bs0 := bones_of w).
  apply (for_bones_alter _ (addParents_step bs0)
           (λ bs, skel <$> bs = skel <$> bs0)); [| |done].
  - intros bs i Hs. rewrite <- Hs. apply skel_alter, addParents_step_skel.
  - intros w' i pb Hs Hi.
    assert (∃ pb0, bs0 !! i = Some pb0 ∧ skel pb = skel pb0) as (pb0 & Hi0 & Hsk).
    { pose proof (skel_lookup _ _ i Hs) as Hl. rewrite Hi in Hl.
      destruct (bs0 !! i) as [pb0|]; [|done]. exists pb0. split; [done|].
      simpl in Hl. congruence. }
    destruct (wf_bones_terminates bs0 i pb0 pb Hwf Hi0 Hsk) as [r Hr].
    assert (∀ v, while_par (length (alter (set_McpParent v) i (bones_of w')))
                   (alter (set_McpParent v) i (bones_of w'))
                   (parent_of (alter (set_McpParent v) i (bones_of w')) pb)
                 = Some r) as Hwalk.
    { intros v. rewrite <- Hr, length_alter, (skel_length _ _ Hs).
      assert (skel <$> alter (set_McpParent v) i (bones_of w') = skel <$> bs0)
        as Hs' by (rewrite <- Hs; by apply skel_alter).
      apply while_par_skel; [done|]. by apply skel_parent_of. }
    unfold when.
    destruct (truthy (McpBone pb)) eqn:Hrole.
    + unfold update_bone, modify, gets.
      unfold mbind, M_bind. simpl. rewrite !bones_of_set_bones, Hwalk.
      destruct r as [nm|]; simpl.
      * rewrite bones_of_set_bones, set_bones_set_bones, list_alter_alter_eq.
        f_equal. f_equal.
        apply list_alter_ext; [|done].
        intros x Hx. rewrite Hi in Hx. simplify_eq.
        unfold addParents_step. by rewrite Hrole, Hr.
      * unfold mret, M_ret. f_equal. f_equal.
        apply list_alter_ext; [|done].
        intros x Hx. rewrite Hi in Hx. simplify_eq.
        unfold addParents_step. by rewrite Hrole, Hr.
    + unfold mret, M_ret. f_equal.
      rewrite (alter_fixed _ _ _ _ Hi), set_bones_id; [done|].
      unfold addParents_step. by rewrite Hrole.
Qed.

(** The second loop, when every override key names a bone. *)
Lemma addParents_overrides d w :
  Forall (λ kv, is_Some (bone_index (bones_of w) kv.1)) d →
  for_ d (λ '(bname, pname),
    bs ← gets bones_of;
    match bone_index bs bname with
    | Some i => update_bone i (set_McpParent pname)
    | None => raise (KeyError bname)
    end) w
  = (Return tt, set_bones (assign_all set_McpParent d (bones_of w)) w).
Proof.
  revert w. induction d as [|[k v] d IH]; intros w Hd; simpl.
  { by rewrite set_bones_id. }
  apply Forall_cons in Hd as [[i Hi] Hd]. simpl in Hi.
  unfold mbind at 1, M_bind. unfold mbind at 1, M_bind. simpl.
  rewrite Hi. simpl. rewrite IH; simpl.
  - by rewrite set_bones_set_bones.
  - eapply Forall_impl; [exact Hd|]. intros [k' v'] Hk'. simpl in *.
    rewrite (bone_index_same_names _ (bones_of w)); [done|].
    by apply names_alter.
Qed.

(** The second loop, when some override key names no bone. *)
Lemma addParents_overrides_KeyError d w :
  Exists (λ kv, bone_index (bones_of w) kv.1 = None) d →
  ∃ k w', for_ d (λ '(bname, pname),
            bs ← gets bones_of;
            match bone_index bs bname with
            | Some i => update_bone i (set_McpParent pname)
            | None => raise (KeyError bname)
            end) w
          = (Raise (KeyError k), w') ∧
          k ∈ d.*1 ∧ bone_index (bones_of w) k = None ∧
          skel <$> bones_of w' = skel <$> bones_of w.
Proof.
  revert w. induction d as [|[k v] d IH]; intros w Hd; simpl.
  { by apply Exists_nil in Hd. }
  unfold mbind at 1, M_bind. unfold mbind at 1, M_bind. simpl.
  destruct (bone_index (bones_of w) k) as [i|] eqn:Hi; simpl.
  - apply Exists_cons in Hd as [Hd|Hd]; [simpl in Hd; congruence|].
    set (w1 := set_bones (alter (set_McpParent v) i (bones_of w)) w).
    assert (pb_name <$> bones_of w1 = pb_name <$> bones_of w) as Hn
      by by apply names_alter.
    destruct (IH w1) as (k' & w' & Hrun & Hin & Hk' & Hs).
    { eapply Exists_impl; [exact Hd|]. intros [k' v'] Hk'. simpl in *.
      by rewrite (bone_index_same_names _ (bones_of w)). }
    exists k', w'. split_and!; [done|set_solver| |].
    + by rewrite <- (bone_index_same_names _ _ _ Hn).
    + rewrite Hs. by apply skel_alter.
  - exists k, w. split_and!; [done|set_solver|done|done].
Qed.

(** The closing loop only prints. *)
Lemma addParents_report w :
  ∃ out, (print "Parents";;
          for_bones (λ i pb,
            when (truthy (McpBone pb))
              (print ("  " +:+ " " +:+ pb_name pb +:+ " " +:+ McpParent pb)))) w
         = (Return tt, set_stdout (stdout w ++ out) w).
Proof.
  unfold mbind at 1, M_bind. simpl.
  destruct (for_bones_print
    (λ (i : nat) pb,
       when (truthy (McpBone pb))
         (print ("  " +:+ " " +:+ pb_name pb +:+ " " +:+ McpParent pb)))
    ) with (w := set_stdout (stdout w ++ ["Parents"]) w) as [out Hout].
  - intros w' i pb. unfold when. destruct (truthy (McpBone pb)).
    + by eexists.
    + exists []. unfold mret, M_ret. by rewrite set_stdout_id.
  - exists ("Parents" :: out). etrans; [apply Hout|].
    by rewrite set_stdout_set_stdout.
Qed.

Lemma addParents_Return self d w :
  wf_bones (bones_of w) → info_parents self = JDict d →
  Forall (λ kv, is_Some (bone_index (bones_of w) kv.1)) d →
  ∃ out, addParents self w
         = (Return tt,
            set_stdout (stdout w ++ out)
              (set_bones (assign_all set_McpParent d
                            (addParents_step (bones_of w) <$> bones_of w)) w)).
Proof.
  intros Hwf Hp Hd. unfold addParents.
  erewrite bind_Return by (by apply addParents_walk).
  rewrite Hp. erewrite bind_Return by done.
  erewrite bind_Return.
  - destruct (addParents_report
                (set_bones (assign_all set_McpParent d
                   (addParents_step (bones_of w) <$> bones_of w)) w))
      as [out Hout].
    exists out. apply Hout.
  - rewrite addParents_overrides; [by rewrite set_bones_set_bones|].
    eapply Forall_impl; [exact Hd|]. intros [k v] Hk. simpl in *.
    rewrite (bone_index_same_names _ (bones_of w)); [done|].
    apply skel_names, addParents_step_skel_map.
Qed.

Lemma addParents_KeyError self d w :
  wf_bones (bones_of w) → info_parents self = JDict d →
  Exists (λ kv, bone_index (bones_of w) kv.1 = None) d →
  ∃ k w', addParents self w = (Raise (KeyError k), w') ∧
          k ∈ d.*1 ∧ bone_index (bones_of w) k = None ∧
          skel <$> bones_of w' = skel <$> bones_of w.
Proof.
  intros Hwf Hp Hd. unfold addParents.
  erewrite bind_Return by (by apply addParents_walk).
  rewrite Hp. erewrite bind_Return by done.
  set (w1 := set_bones (addParents_step (bones_of w) <$> bones_of w) w).
  assert (skel <$> bones_of w1 = skel <$> bones_of w) as Hs1.
  { apply addParents_step_skel_map. }
  destruct (addParents_overrides_KeyError d w1) as (k & w' & Hrun & Hin & Hk & Hs).
  { eapply Exists_impl; [exact Hd|]. intros [k v] Hk. simpl in *.
    rewrite (bone_index_same_names _ (bones_of w)); [done|].
    by apply skel_names. }
  exists k, w'. split_and!; [by erewrite bind_Raise|done| |by rewrite Hs].
  rewrite <- Hk. symmetry. apply bone_index_same_names. by apply skel_names.
Qed.

Lemma addParents_AttributeError self s w :
  wf_bones (bones_of w) → info_parents self = JStr s →
  ∃ msg w', addParents self w = (Raise (AttributeError msg), w') ∧
            skel <$> bones_of w' = skel <$> bones_of w.
Proof.
  intros Hwf Hp. unfold addParents.
  erewrite bind_Return by (by apply addParents_walk).
  rewrite Hp. eexists _, _. split; [by erewrite bind_Raise|].
  apply addParents_step_skel_map.
Qed.
End addParents_lemmas.

(** ** Nearest role-bearing ancestors *)

Lemma nth_ancestor_skel (bs1 bs2 : list PoseBone) k pb1 pb2 :
  skel <$> bs1 = skel <$> bs2 → skel pb1 = skel pb2 →
  skel <$> nth_ancestor bs1 k pb1 = skel <$> nth_ancestor bs2 k pb2.
Proof.
  intros Hs. revert pb1 pb2. induction k as [|k IH]; intros pb1 pb2 Hpb; simpl.
  { by rewrite Hpb. }
  pose proof (skel_parent_of bs1 bs2 pb1 pb2 Hs Hpb) as Hp.
  destruct (parent_of bs1 pb1) as [a1|], (parent_of bs2 pb2) as [a2|];
    simplify_eq/=; [|done].
  apply IH. unfold skel. congruence.
Qed.

Lemma nth_ancestor_role (bs1 bs2 : list PoseBone) k pb1 pb2 a1 :
  skel <$> bs1 = skel <$> bs2 → skel pb1 = skel pb2 →
  nth_ancestor bs1 k pb1 = Some a1 →
  ∃ a2, nth_ancestor bs2 k pb2 = Some a2 ∧ skel a2 = skel a1.
Proof.
  intros Hs Hpb Ha. pose proof (nth_ancestor_skel bs1 bs2 k pb1 pb2 Hs Hpb) as H.
  rewrite Ha in H. destruct (nth_ancestor bs2 k pb2) as [a2|]; [|done].
  exists a2. split; [done|]. simpl in H. congruence.
Qed.

Lemma nearest_mapped_ancestor_skel (bs1 bs2 : list PoseBone) pb1 pb2 nm :
  skel <$> bs1 = skel <$> bs2 → skel pb1 = skel pb2 →
  nearest_mapped_ancestor bs1 pb1 nm → nearest_mapped_ancestor bs2 pb2 nm.
Proof.
  intros Hs Hpb (k & a & Ha & Hrole & Hnm & Hbelow).
  destruct (nth_ancestor_role bs1 bs2 (S k) pb1 pb2 a Hs Hpb Ha) as (a2 & Ha2 & Hsk).
  injection Hsk as Hn _ Hr.
  exists k, a2. split_and!; [done|congruence|congruence|].
  intros j b Hj Hb.
  destruct (nth_ancestor_role bs2 bs1 (S j) pb2 pb1 b) as (b1 & Hb1 & Hskb);
    [done..|].
  injection Hskb as _ _ Hrb. rewrite <- Hrb. by apply (Hbelow j).
Qed.

Lemma no_mapped_ancestor_skel (bs1 bs2 : list PoseBone) pb1 pb2 :
  skel <$> bs1 = skel <$> bs2 → skel pb1 = skel pb2 →
  no_mapped_ancestor bs1 pb1 → no_mapped_ancestor bs2 pb2.
Proof.
  intros Hs Hpb Hno k a Ha.
  destruct (nth_ancestor_role bs2 bs1 (S k) pb2 pb1 a) as (a1 & Ha1 & Hsk);
    [done..|].
  injection Hsk as _ _ Hr. rewrite <- Hr. by apply (Hno k).
Qed.

(** The first loop leaves a role-bearing bone with the name of its nearest
    role-bearing ancestor, or with no parent-role when it has none. *)
Lemma addParents_step_nearest (bs0 : list PoseBone) i pb :
  wf_bones bs0 → bs0 !! i = Some pb → McpBone pb ≠ "" →
  nearest_mapped_ancestor bs0 pb (McpParent (addParents_step bs0 pb)) ∨
  (no_mapped_ancestor bs0 pb ∧ McpParent (addParents_step bs0 pb) = "").
Proof.
  intros Hwf Hi Hrole.
  destruct (wf_bones_terminates bs0 i pb pb Hwf Hi eq_refl) as [r Hr].
  unfold addParents_step. rewrite (proj2 (truthy_true _) Hrole), Hr.
  destruct r as [nm|]; simpl.
  - left. by apply (while_par_found _ _ _ _ Hr).
  - right. split; [|done]. intros k a. by apply (while_par_none _ _ _ Hr).
Qed.

Lemma override_of_None {V} (d : list (string * V)) k :
  override_of d k = None ↔ k ∉ d.*1.
Proof.
  induction d as [|[k' v] d IH]; simpl; [set_solver|].
  rewrite not_elem_of_cons, <- IH.
  destruct (override_of d k); [naive_solver|].
  destruct (String.eqb_spec k' k); naive_solver.
Qed.

Lemma override_of_NoDup {V} (d : list (string * V)) k v :
  NoDup d.*1 → (k, v) ∈ d → override_of d k = Some v.
Proof.
  induction d as [|[k' v'] d IH]; simpl; [set_solver|].
  intros [Hk' Hnd]%NoDup_cons [Heq|Hin]%elem_of_cons.
  - injection Heq as -> ->. rewrite (proj2 (override_of_None d k') Hk').
    by rewrite String.eqb_refl.
  - by rewrite (IH Hnd Hin).
Qed.

Lemma override_of_elem {V} (d : list (string * V)) k v :
  override_of d k = Some v → (k, v) ∈ d.
Proof.
  induction d as [|[k' v'] d IH]; simpl; [done|].
  destruct (override_of d k) as [v''|].
  - intros ?. simplify_eq. right. by apply IH.
  - destruct (String.eqb_spec k' k); [|done]. intros ?. simplify_eq. by left.
Qed.

Section resolved_lemmas.
Context `{host : Host}.
Implicit Types (w : World) (bs : list PoseBone).

(** When [addParents] returns it has touched nothing but the parent-roles
    and the output, and every role-bearing bone is resolved. *)
Lemma addParents_resolved self d w :
  wf_bones (bones_of w) → info_parents self = JDict d →
  Forall (λ kv, is_Some (bone_index (bones_of w) kv.1)) d →
  ∃ w', addParents self w = (Return tt, w') ∧
        skel <$> bones_of w' = skel <$> bones_of w ∧
        _targetInfo w' = _targetInfo w ∧
        (∀ i pb, bones_of w !! i = Some pb →
           bones_of w' !! i
           = Some (from_option (λ v, set_McpParent v (addParents_step (bones_of w) pb))
                               (addParents_step (bones_of w) pb)
                               (override_of d (pb_name pb)))) ∧
        (∀ i pb', bones_of w' !! i = Some pb' → McpBone pb' ≠ "" →
           parent_role_resolved (bones_of w') d pb').
Proof.
  intros Hwf Hp Hd.
  destruct (addParents_Return self d w Hwf Hp Hd) as [out Hrun].
  eexists. split; [exact Hrun|].
  set (bs0 := bones_of w) in *.
  change (bones_of (set_stdout _ (set_bones ?bs _))) with bs.
  change (_targetInfo (set_stdout _ (set_bones _ ?w0))) with (_targetInfo w0).
  assert (skel <$> assign_all set_McpParent d (addParents_step bs0 <$> bs0)
          = skel <$> bs0) as Hs
    by by rewrite assign_all_skel, addParents_step_skel_map.
  assert (∀ i pb, bs0 !! i = Some pb →
            assign_all set_McpParent d (addParents_step bs0 <$> bs0) !! i
            = Some (from_option (λ v, set_McpParent v (addParents_step bs0 pb))
                                (addParents_step bs0 pb)
                                (override_of d (pb_name pb)))) as Hlook.
  { intros i pb Hi.
    rewrite (assign_all_lookup set_McpParent d _ i (addParents_step bs0 pb));
      [|done|done| |by rewrite list_lookup_fmap, Hi].
    - assert (pb_name (addParents_step bs0 pb) = pb_name pb) as ->; [|done].
      pose proof (addParents_step_skel bs0 pb) as Hsk. by injection Hsk.
    - rewrite (skel_names _ bs0) by apply addParents_step_skel_map.
      apply Hwf. }
  split_and!; [done|done|done|].
  intros i pb' Hi' Hrole'.
  destruct (bs0 !! i) as [pb|] eqn:Hi.
  2:{ apply lookup_ge_None in Hi. apply lookup_lt_Some in Hi'.
      rewrite (skel_length _ _ Hs) in Hi'. lia. }
  rewrite (Hlook i pb Hi) in Hi'. injection Hi' as <-.
  pose proof (addParents_step_skel bs0 pb) as Hsk.
  unfold parent_role_resolved.
  destruct (override_of d (pb_name pb)) as [v|] eqn:Hov; simpl in *.
  - injection Hsk as Hn _ _. by rewrite Hn, Hov.
  - pose proof Hsk as Hsk'. injection Hsk' as Hn _ Hr. rewrite Hn, Hov.
    destruct (addParents_step_nearest bs0 i pb Hwf Hi) as [Hnear|[Hno Hempty]].
    + congruence.
    + left. by eapply nearest_mapped_ancestor_skel.
    + right. split; [|done]. by eapply no_mapped_ancestor_skel.
Qed.
End resolved_lemmas.

Lemma present_Forall (bs : list PoseBone) (d : list (string * string)) :
  (∀ k, k ∈ d.*1 → is_Some (bone_index bs k)) →
  Forall (λ kv, is_Some (bone_index bs kv.1)) d.
Proof.
  intros Hd. apply Forall_forall. intros [k v] Hin. apply Hd.
  apply list_elem_of_fmap. by exists (k, v).
Qed.

Lemma absent_Exists (bs : list PoseBone) (d : list (string * string)) k :
  k ∈ d.*1 → bone_index bs k = None →
  Exists (λ kv, bone_index bs kv.1 = None) d.
Proof.
  intros ([k' v] & -> & Hin)%list_elem_of_fmap Hk.
  apply Exists_exists. by exists (k', v).
Qed.

Lemma present_or_absent (bs : list PoseBone) (d : list (string * string)) :
  Forall (λ kv, is_Some (bone_index bs kv.1)) d ∨
  Exists (λ kv, bone_index bs kv.1 = None) d.
Proof.
  induction d as [|[k v] d [IH|IH]].
  - left. constructor.
  - destruct (bone_index bs k) as [i|] eqn:Hk.
    + left. constructor; [by eexists|done].
    + right. by apply Exists_cons_hd.
  - right. by apply Exists_cons_tl.
Qed.

Section claims_addParents.
Context `{host : Host}.
Implicit Types (w : World) (bs : list PoseBone).

(** C2.  [addParents] gives every role-bearing bone that the override
    table does not list the name of its nearest role-bearing proper
    ancestor as parent-role (no parent-role when it has no such
    ancestor); in a chain of three bones whose root and leaf alone carry
    roles the leaf's parent-role is the root. *)
Theorem addParents_nearest_role_ancestor :
  (∀ self d w,
     wf_bones (bones_of w) → info_parents self = JDict d →
     (∀ k, k ∈ d.*1 → is_Some (bone_index (bones_of w) k)) →
     ∃ w', addParents self w = (Return tt, w') ∧
       ∀ i pb, bones_of w !! i = Some pb → McpBone pb ≠ "" →
         pb_name pb ∉ d.*1 →
         ∃ pb', bones_of w' !! i = Some pb' ∧ skel pb' = skel pb ∧
           (nearest_mapped_ancestor (bones_of w) pb (McpParent pb') ∨
            (no_mapped_ancestor (bones_of w) pb ∧ McpParent pb' = ""))) ∧
  (∀ self w root mid leaf,
     bones_of w = [root; mid; leaf] →
     pb_parent root = None → pb_parent mid = Some 0 → pb_parent leaf = Some 1 →
     NoDup [pb_name root; pb_name mid; pb_name leaf] →
     McpBone root ≠ "" → McpBone mid = "" → McpBone leaf ≠ "" →
     info_parents self = JDict [] →
     ∃ w' leaf', addParents self w = (Return tt, w') ∧
       bones_of w' !! 2 = Some leaf' ∧ McpParent leaf' = pb_name root).
Proof.
  split.
  - intros self d w Hwf Hp Hd.
    destruct (addParents_resolved self d w Hwf Hp (present_Forall _ _ Hd))
      as (w' & Hrun & _ & _ & Hlook & _).
    exists w'. split; [done|]. intros i pb Hi Hrole Hnov.
    rewrite (Hlook i pb Hi), (proj2 (override_of_None d _) Hnov). simpl.
    eexists. split_and!; [done|apply addParents_step_skel|].
    by apply (addParents_step_nearest _ i).
  - intros self w root mid leaf Hbs Hroot Hmid Hleaf Hnd Hr0 Hr1 Hr2 Hp.
    assert (wf_bones (bones_of w)) as Hwf.
    { rewrite Hbs. split; [done|].
      repeat constructor; simpl; rewrite ?Hroot, ?Hmid, ?Hleaf; simpl;
        rewrite ?Hroot, ?Hmid; simpl; by rewrite ?Hroot. }
    destruct (addParents_resolved self [] w Hwf Hp) as (w' & Hrun & _ & _ & Hlook & _);
      [constructor|].
    exists w'. eexists. split; [done|]. split.
    + apply Hlook. by rewrite Hbs.
    + simpl. unfold addParents_step.
      rewrite (proj2 (truthy_true _) Hr2), Hbs. unfold parent_of.
      rewrite Hleaf. simpl. rewrite (proj2 (truthy_false _) Hr1).
      unfold parent_of. rewrite Hmid. simpl.
      by rewrite (proj2 (truthy_true _) Hr0).
Qed.

(** C3.  Every bone the override table lists has, after [addParents], the
    table's value as parent-role, whatever the ancestor walk found: the
    value of the last pair for the bone's name, which for a table that
    lists no name twice is the value of its one pair. *)
Theorem addParents_override_precedence self d w :
  wf_bones (bones_of w) → info_parents self = JDict d →
  (∀ k, k ∈ d.*1 → is_Some (bone_index (bones_of w) k)) →
  ∃ w', addParents self w = (Return tt, w') ∧
    (∀ bname pname, override_of d bname = Some pname →
       ∃ i pb', bone_index (bones_of w') bname = Some i ∧
                bones_of w' !! i = Some pb' ∧ McpParent pb' = pname) ∧
    (NoDup d.*1 →
     ∀ bname pname, (bname, pname) ∈ d →
       ∃ i pb', bone_index (bones_of w') bname = Some i ∧
                bones_of w' !! i = Some pb' ∧ McpParent pb' = pname).
Proof.
  intros Hwf Hp Hd.
  destruct (addParents_resolved self d w Hwf Hp (present_Forall _ _ Hd))
    as (w' & Hrun & Hs & _ & Hlook & _).
  exists w'. split; [done|].
  assert (∀ bname pname, override_of d bname = Some pname →
            ∃ i pb', bone_index (bones_of w') bname = Some i ∧
                     bones_of w' !! i = Some pb' ∧ McpParent pb' = pname) as Hov.
  { intros bname pname Hov.
    destruct (Hd bname) as [i Hi].
    { apply list_elem_of_fmap. exists (bname, pname). split; [done|].
      by apply override_of_elem. }
    destruct (bone_index_Some _ _ _ Hi) as (pb & Hpb & Hname).
    exists i. eexists. split_and!.
    - by rewrite (bone_index_same_names _ (bones_of w)) by by apply skel_names.
    - by apply Hlook.
    - by rewrite Hname, Hov. }
  split; [done|]. intros Hnd bname pname Hin.
  by apply Hov, override_of_NoDup.
Qed.

(** C9.  [addParents] raises [KeyError] when the override table has a key
    that names no bone of the armature, and returns when every key names
    one. *)
Theorem addParents_KeyError_iff_missing self d w :
  wf_bones (bones_of w) → info_parents self = JDict d →
  ((∃ k, k ∈ d.*1 ∧ bone_index (bones_of w) k = None) →
   ∃ k w', addParents self w = (Raise (KeyError k), w') ∧
           k ∈ d.*1 ∧ bone_index (bones_of w) k = None) ∧
  ((∀ k, k ∈ d.*1 → is_Some (bone_index (bones_of w) k)) →
   ∃ w', addParents self w = (Return tt, w')).
Proof.
  intros Hwf Hp. split.
  - intros (k & Hin & Hk).
    destruct (addParents_KeyError self d w Hwf Hp (absent_Exists _ _ k Hin Hk))
      as (k' & w' & Hrun & Hin' & Hk' & _).
    by exists k', w'.
  - intros Hd.
    destruct (addParents_resolved self d w Hwf Hp (present_Forall _ _ Hd))
      as (w' & Hrun & _).
    by exists w'.
Qed.
End claims_addParents.

(** ** Well-formedness depends on names and parent links only *)

Lemma reaches_root_parents fuel (bs1 bs2 : list PoseBone) par :
  pb_parent <$> bs1 = pb_parent <$> bs2 →
  reaches_root fuel bs1 par = reaches_root fuel bs2 par.
Proof.
  intros Hp. revert par. induction fuel as [|fuel IH]; intros [p|]; simpl; try done.
  assert (pb_parent <$> (bs1 !! p) = pb_parent <$> (bs2 !! p)) as Hl
    by by rewrite <- !list_lookup_fmap, Hp.
  destruct (bs1 !! p) as [b1|], (bs2 !! p) as [b2|]; try done.
  injection Hl as ->. apply IH.
Qed.

Lemma wf_bones_same_links (bs1 bs2 : list PoseBone) :
  pb_name <$> bs1 = pb_name <$> bs2 → pb_parent <$> bs1 = pb_parent <$> bs2 →
  wf_bones bs1 → wf_bones bs2.
Proof.
  intros Hn Hp [Hnd Hwf]. split; [by rewrite <- Hn|].
  assert (length bs1 = length bs2) as Hlen
    by by rewrite <- (length_fmap pb_name bs1), Hn, length_fmap.
  apply (Forall_fmap pb_parent (λ par, reaches_root (length bs2) bs2 par = true)).
  rewrite <- Hp. apply Forall_fmap. eapply Forall_impl; [exact Hwf|].
  intros pb Hpb. simpl in *.
  by rewrite <- Hlen, <- (reaches_root_parents _ bs1 bs2).
Qed.

Lemma fmap_alter_proj {B} (f : PoseBone → B) (g : PoseBone → PoseBone)
    (bs : list PoseBone) i :
  (∀ pb, f (g pb) = f pb) → f <$> alter g i bs = f <$> bs.
Proof.
  intros Hf. rewrite (list_fmap_alter f g id).
  - by apply list_alter_id.
  - by apply Forall_forall.
Qed.

Lemma assign_all_proj {B} (f : PoseBone → B) set d (bs : list PoseBone) :
  (∀ v pb, f (set v pb) = f pb) → f <$> assign_all set d bs = f <$> bs.
Proof.
  intros Hset. revert bs. induction d as [|[k v] d IH]; intros bs; simpl; [done|].
  rewrite IH. destruct (bone_index bs k); [|done].
  by apply fmap_alter_proj.
Qed.

Section mapping_lemmas.
Context `{host : Host}.
Implicit Types (w : World) (bs : list PoseBone).

Lemma bones_of_set_stdout out w : bones_of (set_stdout out w) = bones_of w.
Proof. done. Qed.

(** Whatever the outcome of [addParents], names, parent links and roles
    are as before. *)
Lemma addParents_skel self w r w' :
  wf_bones (bones_of w) → addParents self w = (r, w') →
  skel <$> bones_of w' = skel <$> bones_of w.
Proof.
  intros Hwf Hrun. destruct (info_parents self) as [s|d] eqn:Hp.
  - destruct (addParents_AttributeError self s w Hwf Hp) as (? & ? & Hrun' & ?).
    rewrite Hrun in Hrun'. by simplify_eq.
  - destruct (present_or_absent (bones_of w) d) as [Hd|Hd].
    + destruct (addParents_resolved self d w Hwf Hp Hd) as (? & Hrun' & ? & _).
      rewrite Hrun in Hrun'. by simplify_eq.
    + destruct (addParents_KeyError self d w Hwf Hp Hd)
        as (? & ? & Hrun' & _ & _ & ?).
      rewrite Hrun in Hrun'. by simplify_eq.
Qed.

(** [addParents] returns only for a table of overrides whose keys all
    name bones. *)
Lemma addParents_Return_inv self w w' :
  wf_bones (bones_of w) → addParents self w = (Return tt, w') →
  ∃ d, info_parents self = JDict d ∧
       Forall (λ kv, is_Some (bone_index (bones_of w) kv.1)) d.
Proof.
  intros Hwf Hrun. destruct (info_parents self) as [s|d] eqn:Hp.
  - destruct (addParents_AttributeError self s w Hwf Hp) as (? & ? & Hrun' & ?).
    rewrite Hrun in Hrun'. by simplify_eq.
  - exists d. split; [done|].
    destruct (present_or_absent (bones_of w) d) as [Hd|Hd]; [done|].
    destruct (addParents_KeyError self d w Hwf Hp Hd) as (? & ? & Hrun' & _).
    rewrite Hrun in Hrun'. by simplify_eq.
Qed.

(** The loop that assigns the roles of a table, missing bones printed. *)
Lemma addManualBones_assign tbl w :
  ∃ out,
    for_ tbl (λ '(bname, mhx),
      bs ← gets bones_of;
      match bone_index bs bname with
      | Some i => update_bone i (set_McpBone mhx)
      | None => print ("  " +:+ " " +:+ bname)
      end) w
    = (Return tt,
       set_stdout (stdout w ++ out)
         (set_bones (assign_all set_McpBone tbl (bones_of w)) w)).
Proof.
  revert w. induction tbl as [|[k v] tbl IH]; intros w; simpl.
  { exists []. by rewrite set_bones_id, set_stdout_id. }
  destruct (bone_index (bones_of w) k) as [i|] eqn:Hi.
  - destruct (IH (set_bones (alter (set_McpBone v) i (bones_of w)) w))
      as [out Hout].
    exists out. erewrite bind_Return; [exact Hout|].
    erewrite bind_Return by done. by rewrite Hi.
  - destruct (IH (set_stdout (stdout w ++ ["  " +:+ " " +:+ k]) w))
      as [out Hout].
    exists (("  " +:+ " " +:+ k) :: out).
    erewrite bind_Return; [etrans; [exact Hout|]|].
    + rewrite bones_of_set_stdout. simpl. by rewrite <- app_assoc.
    + erewrite bind_Return by done. by rewrite Hi.
Qed.

(** [addManualBones] is [addParents] on the armature whose roles are those
    of the table. *)
Lemma addManualBones_run self w :
  ∃ out,
    addManualBones self w
    = addParents self
        (set_stdout (stdout w ++ out)
           (set_bones (assign_all set_McpBone (info_bones self)
                         (set_McpBone "" <$> bones_of w)) w)).
Proof.
  unfold addManualBones.
  destruct (addManualBones_assign (info_bones self)
              (set_bones (set_McpBone "" <$> bones_of w) w)) as [out Hout].
  exists out.
  erewrite bind_Return; [erewrite bind_Return; [|exact Hout]|].
  - by rewrite bones_of_set_bones.
  - apply (for_bones_alter _ (set_McpBone "") (λ _, True)); done.
Qed.

Lemma addManualBones_wf tbl bs :
  wf_bones bs →
  wf_bones (assign_all set_McpBone tbl (set_McpBone "" <$> bs)).
Proof.
  apply wf_bones_same_links.
  - rewrite assign_all_proj by done. rewrite <- list_fmap_compose.
    by apply list_fmap_ext.
  - rewrite assign_all_proj by done. rewrite <- list_fmap_compose.
    by apply list_fmap_ext.
Qed.

(** The role of every bone after the role assignments of a table. *)
Lemma addManualBones_roles tbl bs i pb :
  NoDup (pb_name <$> bs) → bs !! i = Some pb →
  ∃ pb', assign_all set_McpBone tbl (set_McpBone "" <$> bs) !! i = Some pb' ∧
         pb_name pb' = pb_name pb ∧
         McpBone pb' = default "" (override_of tbl (pb_name pb)).
Proof.
  intros Hnd Hi.
  rewrite (assign_all_lookup set_McpBone tbl _ i (set_McpBone "" pb));
    [|done|done| |by rewrite list_lookup_fmap, Hi].
  - eexists. split; [done|]. simpl.
    by destruct (override_of tbl (pb_name pb)).
  - rewrite <- list_fmap_compose.
    by rewrite (list_fmap_ext (pb_name ∘ set_McpBone "") pb_name bs).
Qed.

(** The loop of [addAutoBones] appends the role-bearing bones in order. *)
Lemma addAutoBones_collect bs self w :
  for_ bs (λ pb,
    when (truthy (McpBone pb))
      (assign (λ self, set_info_bones
                         (info_bones self ++ [(pb_name pb, McpBone pb)]) self)))
    (self, w)
  = (Return tt, (set_info_bones (info_bones self ++ role_pairs bs) self, w)).
Proof.
  revert self. induction bs as [|pb bs IH]; intros self; simpl.
  { unfold role_pairs. simpl. rewrite app_nil_r. by destruct self. }
  unfold role_pairs. rewrite filter_cons. unfold when.
  destruct (truthy (McpBone pb)) eqn:Hrole.
  - apply truthy_true in Hrole. rewrite decide_True by done.
    erewrite bind_Return by done. rewrite IH. simpl.
    by rewrite <- app_assoc.
  - apply truthy_false in Hrole. rewrite decide_False by naive_solver.
    erewrite bind_Return by done. apply IH.
Qed.

Lemma addAutoBones_run self w :
  addAutoBones (self, w)
  = let self' := set_info_bones (role_pairs (bones_of w)) self in
    let '(r, w') := addParents self' w in (r, (self', w')).
Proof.
  unfold addAutoBones, Method.
  erewrite bind_Return by done. erewrite bind_Return by done.
  erewrite bind_Return by apply addAutoBones_collect.
  by erewrite bind_Return by done.
Qed.
(** Both mapping operations return on a table whose override keys all name
    bones. *)
Lemma addManualBones_Return self d w :
  wf_bones (bones_of w) → info_parents self = JDict d →
  (∀ k, k ∈ d.*1 → is_Some (bone_index (bones_of w) k)) →
  ∃ w', addManualBones self w = (Return tt, w').
Proof.
  intros Hwf Hp Hd.
  destruct (addManualBones_run self w) as [out Hman]. rewrite Hman.
  set (w1 := set_stdout _ _).
  assert (wf_bones (bones_of w1)) as Hwf1
    by by apply (addManualBones_wf (info_bones self)).
  assert (pb_name <$> bones_of w1 = pb_name <$> bones_of w) as Hnames.
  { unfold w1. change (bones_of (set_stdout _ (set_bones ?bs _))) with bs.
    rewrite assign_all_proj by done. rewrite <- list_fmap_compose.
    by apply list_fmap_ext. }
  destruct (addParents_Return self d w1 Hwf1 Hp) as [out' Hrun]; [|by eexists].
  apply present_Forall. intros k Hk.
  rewrite (bone_index_same_names _ (bones_of w)) by done. by apply Hd.
Qed.

Lemma addAutoBones_Return self d w :
  wf_bones (bones_of w) → info_parents self = JDict d →
  (∀ k, k ∈ d.*1 → is_Some (bone_index (bones_of w) k)) →
  ∃ self' w', addAutoBones (self, w) = (Return tt, (self', w')).
Proof.
  intros Hwf Hp Hd. rewrite addAutoBones_run. simpl.
  destruct (addParents_Return (set_info_bones (role_pairs (bones_of w)) self)
              d w Hwf Hp (present_Forall _ _ Hd)) as [out ->].
  by eexists _, _.
Qed.
End mapping_lemmas.

Section claims_mapping.
Context `{host : Host}.
Implicit Types (w : World) (bs : list PoseBone).

(** C5.  [addManualBones] and [addAutoBones] return on a table whose
    override keys all name bones, and whenever either returns, every bone
    that carries a role has its parent-role resolved: it is the override
    table's value when the table lists the bone, else the name of the
    nearest role-bearing ancestor, else empty. *)
Theorem mapping_operations_resolve_parents :
  (∀ self d w,
     wf_bones (bones_of w) → info_parents self = JDict d →
     (∀ k, k ∈ d.*1 → is_Some (bone_index (bones_of w) k)) →
     (∃ w', addManualBones self w = (Return tt, w')) ∧
     (∃ self' w', addAutoBones (self, w) = (Return tt, (self', w')))) ∧
  (∀ self w w',
     wf_bones (bones_of w) → addManualBones self w = (Return tt, w') →
     ∃ d, info_parents self = JDict d ∧
       ∀ i pb, bones_of w' !! i = Some pb → McpBone pb ≠ "" →
         parent_role_resolved (bones_of w') d pb) ∧
  (∀ self w self' w',
     wf_bones (bones_of w) → addAutoBones (self, w) = (Return tt, (self', w')) →
     info_bones self' = role_pairs (bones_of w) ∧
     ∃ d, info_parents self' = JDict d ∧
       ∀ i pb, bones_of w' !! i = Some pb → McpBone pb ≠ "" →
         parent_role_resolved (bones_of w') d pb).
Proof.
  split_and!.
  - intros self d w Hwf Hp Hd. split.
    + by apply (addManualBones_Return self d).
    + by apply (addAutoBones_Return self d).
  - intros self w w' Hwf Hrun.
    destruct (addManualBones_run self w) as [out Hman]. rewrite Hman in Hrun.
    set (w1 := set_stdout _ _) in Hrun.
    assert (wf_bones (bones_of w1)) as Hwf2
      by by apply (addManualBones_wf (info_bones self)).
    destruct (addParents_Return_inv self w1 w' Hwf2 Hrun) as (d & Hp & Hd).
    destruct (addParents_resolved self d w1 Hwf2 Hp Hd) as (w2 & Hrun2 & _ & _ & _ & Hres).
    rewrite Hrun in Hrun2. injection Hrun2 as <-. eauto.
  - intros self w self' w' Hwf Hrun.
    rewrite addAutoBones_run in Hrun. simpl in Hrun.
    destruct (addParents _ w) as [r w2] eqn:Hpar.
    injection Hrun as Hr Hself Hw. subst r self' w2. split; [done|].
    destruct (addParents_Return_inv _ w w' Hwf Hpar) as (d & Hp & Hd).
    destruct (addParents_resolved _ d w Hwf Hp Hd) as (w2 & Hrun2 & _ & _ & _ & Hres).
    rewrite Hpar in Hrun2. injection Hrun2 as <-. eauto.
Qed.

(** C8.  [addManualBones] clears every role and then applies the table:
    whatever its outcome, a bone ends with the role of the last pair of the
    table for its name, and with the empty role when the table does not
    list it; for a table that lists no name twice, a bone has the non-empty
    role [role] exactly when the table lists its name with [role]. *)
Theorem addManualBones_roles_from_table self w r w' :
  wf_bones (bones_of w) → addManualBones self w = (r, w') →
  ∀ i pb, bones_of w !! i = Some pb →
    ∃ pb', bones_of w' !! i = Some pb' ∧ pb_name pb' = pb_name pb ∧
      McpBone pb' = default "" (override_of (info_bones self) (pb_name pb)) ∧
      (pb_name pb ∉ (info_bones self).*1 → McpBone pb' = "") ∧
      (NoDup (info_bones self).*1 →
       ∀ role, role ≠ "" →
         McpBone pb' = role ↔ (pb_name pb, role) ∈ info_bones self).
Proof.
  intros Hwf Hrun i pb Hi.
  destruct (addManualBones_run self w) as [out Hman]. rewrite Hman in Hrun.
  set (w1 := set_stdout _ _) in Hrun.
  assert (wf_bones (bones_of w1)) as Hwf2
    by by apply (addManualBones_wf (info_bones self)).
  pose proof (addParents_skel self w1 r w' Hwf2 Hrun) as Hs.
  destruct (addManualBones_roles (info_bones self) _ i pb (proj1 Hwf) Hi)
    as (pb2 & Hi2 & Hn2 & Hr2).
  pose proof (skel_lookup _ _ i Hs) as Hl.
  change (bones_of w1) with (assign_all set_McpBone (info_bones self)
                               (set_McpBone "" <$> bones_of w)) in Hl.
  rewrite Hi2 in Hl.
  destruct (bones_of w' !! i) as [pb'|]; [|done].
  injection Hl as Hn' _ Hr'.
  exists pb'. split_and!; [done|congruence|congruence| |].
  - intros Hnot. rewrite Hr', Hr2.
    by rewrite (proj2 (override_of_None _ _) Hnot).
  - intros Hnd role Hrole. rewrite Hr', Hr2. split.
    + intros Hov. destruct (override_of _ _) as [v|] eqn:Hv; simpl in Hov;
        [|congruence].
      subst v. by apply override_of_elem.
    + intros Hin. by rewrite (override_of_NoDup _ _ _ Hnd Hin).
Qed.
End claims_mapping.

(** ** Reading a mapping file *)

Section readFile_lemmas.
Context `{host : Host}.
Implicit Types (w : World).

(** [readFile] prints one line and touches nothing else of the world; when
    it returns, the object has the path it was read from and the name the
    file stores. *)
Lemma readFile_run filepath self w :
  ∃ r self',
    readFile filepath (self, w)
    = (r, (self', set_stdout (stdout w ++ ["Read target file " +:+ filepath]) w)) ∧
    (r = Return tt →
     stored_name (files w) filepath = Some (info_name self') ∧
     info_filepath self' = filepath) ∧
    (well_formed_mapping_file (files w) filepath → r = Return tt).
Proof.
  unfold readFile, Method, stored_name, well_formed_mapping_file.
  unfold json_load, struct_getitem, items.
  unfold mbind, M_bind, liftW, print, assign, modify, gets, raise, mret, M_ret.
  simpl.
  destruct (files w !! filepath) as [[[struct|]|]|]; simpl;
    try (eexists _, _; split_and!; [done|done|];
         by intros (? & ? & ? & ? & _)).
  destruct (getitem struct "name") as [name|] eqn:Hname; simpl.
  2:{ eexists _, _. split_and!; [done|done|].
      intros (? & ? & ? & ? & ? & _). simplify_eq. }
  destruct (getitem struct "bones") as [[s|d]|] eqn:Hbones; simpl;
    try (eexists _, _; split_and!; [done|done|];
         intros (? & ? & ? & ? & ? & ?); simplify_eq).
  destruct (getitem struct "parents") as [parents|]; simpl;
    by eexists _, _.
Qed.

Lemma call_on_new_readFile filepath self w :
  ∃ r, call_on_new self (readFile filepath) w
       = (r, set_stdout (stdout w ++ ["Read target file " +:+ filepath]) w) ∧
       (∀ info, r = Return info →
          stored_name (files w) filepath = Some (info_name info) ∧
          info_filepath info = filepath) ∧
       (well_formed_mapping_file (files w) filepath → ∃ info, r = Return info).
Proof.
  destruct (readFile_run filepath self w) as (r & self' & Hrun & Hret & Hwf).
  unfold call_on_new. rewrite Hrun.
  destruct r as [[]|e|]; eexists; (split; [done|]); split.
  - intros info Hinfo. simplify_eq. by apply Hret.
  - by eexists.
  - by intros info Hinfo.
  - intros Hfile. by specialize (Hwf Hfile).
  - by intros info Hinfo.
  - intros Hfile. by specialize (Hwf Hfile).
Qed.
End readFile_lemmas.

(** ** Dicts *)

Lemma getitem_setitem {V} (d : list (string * V)) k v k' :
  getitem (setitem d k v) k' = if String.eqb k k' then Some v else getitem d k'.
Proof.
  induction d as [|[k0 v0] d IH]; simpl.
  - by destruct (String.eqb k k').
  - destruct (String.eqb_spec k0 k) as [->|Hne]; simpl.
    + by destruct (String.eqb k k').
    + rewrite IH. destruct (String.eqb_spec k0 k') as [->|]; [|done].
      by rewrite (proj2 (String.eqb_neq k k')).
Qed.

Lemma setitem_keys {V} (d : list (string * V)) k v k' :
  k' ∈ (setitem d k v).*1 ↔ k' ∈ d.*1 ∨ k' = k.
Proof.
  induction d as [|[k0 v0] d IH]; simpl.
  - rewrite list_elem_of_singleton. set_solver.
  - destruct (String.eqb_spec k0 k) as [->|Hne]; csimpl.
    + rewrite !elem_of_cons. naive_solver.
    + rewrite !elem_of_cons, IH. naive_solver.
Qed.

Lemma setitem_fresh {V} (d : list (string * V)) k v :
  k ∉ d.*1 → setitem d k v = d ++ [(k, v)].
Proof.
  induction d as [|[k0 v0] d IH]; simpl; [done|].
  intros [Hne Hk]%not_elem_of_cons.
  rewrite (proj2 (String.eqb_neq k0 k)) by done. by rewrite IH.
Qed.

Lemma setitem_NoDup {V} (d : list (string * V)) k v :
  NoDup d.*1 → NoDup (setitem d k v).*1.
Proof.
  induction d as [|[k0 v0] d IH]; simpl.
  - intros _. apply NoDup_singleton.
  - intros [Hk0 Hnd]%NoDup_cons.
    destruct (String.eqb_spec k0 k) as [->|Hne]; csimpl.
    + by apply NoDup_cons.
    + apply NoDup_cons. split; [|by apply IH].
      rewrite setitem_keys. naive_solver.
Qed.

Lemma setitem_nonempty {V} (d : list (string * V)) k v : setitem d k v ≠ [].
Proof. destruct d as [|[k0 v0] d]; simpl; [done|]. by destruct (String.eqb k0 k). Qed.

Lemma setitems_keys {V} (d new : list (string * V)) k :
  k ∈ (setitems d new).*1 ↔ k ∈ d.*1 ∨ k ∈ new.*1.
Proof.
  revert d. induction new as [|[k0 v0] new IH]; intros d.
  - set_solver.
  - unfold setitems in *. simpl. rewrite IH, setitem_keys. csimpl.
    rewrite elem_of_cons. naive_solver.
Qed.

Lemma setitems_NoDup {V} (d new : list (string * V)) :
  NoDup d.*1 → NoDup (setitems d new).*1.
Proof.
  revert d. induction new as [|[k0 v0] new IH]; intros d Hd; [done|].
  by apply IH, setitem_NoDup.
Qed.

Lemma getitem_setitems {V} (d new : list (string * V)) k :
  getitem (setitems d new) k
  = match override_of new k with
    | Some v => Some v
    | None => getitem d k
    end.
Proof.
  revert d. induction new as [|[k0 v0] new IH]; intros d; [done|].
  unfold setitems in *. simpl. rewrite IH, getitem_setitem.
  destruct (override_of new k); [done|]. by destruct (String.eqb k0 k).
Qed.

Lemma setitems_fresh {V} (d new : list (string * V)) :
  NoDup (d.*1 ++ new.*1) → setitems d new = d ++ new.
Proof.
  revert d. induction new as [|[k0 v0] new IH]; intros d Hnd.
  - by rewrite app_nil_r.
  - unfold setitems in *. simpl in *.
    apply NoDup_app in Hnd as (Hd & Hdis & [Hk0 Hnew]%NoDup_cons).
    rewrite setitem_fresh by (intros Hin; by apply (Hdis k0 Hin); left).
    rewrite IH; [by rewrite <- app_assoc|].
    rewrite fmap_app. simpl. rewrite <- app_assoc. simpl.
    apply NoDup_app. split_and!; [done| |by apply NoDup_cons].
    intros k Hin [->|Hin']%elem_of_cons.
    + by apply (Hdis k0 Hin); left.
    + by apply (Hdis k Hin); right.
Qed.

(** ** Initialising the registry *)

Section initTargets_lemmas.
Context `{host : Host}.
Implicit Types (w : World).

Lemma set_stdout_registry_id w :
  set_stdout (stdout w ++ []) (set__targetInfo (_targetInfo w) w) = w.
Proof. rewrite app_nil_r. by destruct w. Qed.

(** One turn of the loop of [initTargets]: a mapping file is read and its
    table is stored under the name the file gives; other entries are
    skipped. *)
Lemma initTargets_body fname w :
  ∃ r out reg',
    (let filepath := path_join target_rigs fname in
     let '(name, ext) := splitext fname in
     is_file ← isfile filepath;
     when (bool_decide (ext = ".json") && is_file) (
       info ← call_on_new (__init__ "Manual") (readFile filepath);
       registry_setitem (info_name info) info)) w
    = (r, set_stdout (stdout w ++ out) (set__targetInfo reg' w)) ∧
    (_targetInfo w ≠ [] → reg' ≠ []) ∧
    (r = Return tt →
     ∃ loaded,
       Forall2 (loaded_from (files w))
         (path_join target_rigs <$>
            filter (λ fname, is_mapping_file (files w) fname = true) [fname])
         loaded ∧
       reg' = setitems (_targetInfo w) loaded) ∧
    ((is_mapping_file (files w) fname = true →
      well_formed_mapping_file (files w) (path_join target_rigs fname)) →
     r = Return tt).
Proof.
  simpl.
  assert (is_mapping_file (files w) fname
          = bool_decide ((splitext fname).2 = ".json") &&
            match files w !! path_join target_rigs fname with
            | Some (File _) => true
            | _ => false
            end) as Hmf by done.
  destruct (splitext fname) as [name ext]. simpl in Hmf.
  assert (∀ k : bool → M World unit,
            (isfile (path_join target_rigs fname) ≫= k) w
            = k match files w !! path_join target_rigs fname with
                | Some (File _) => true
                | _ => false
                end w) as -> by done.
  rewrite <- Hmf.
  destruct (is_mapping_file (files w) fname) eqn:Hcond; simpl.
  - rewrite filter_cons_True, filter_nil by done.
    destruct (call_on_new_readFile (path_join target_rigs fname)
                (__init__ "Manual") w) as (r1 & Hrun1 & Hret1 & Hwf1).
    destruct r1 as [info|e|].
    + destruct (Hret1 info eq_refl) as [Hname Hpath].
      destruct (info_name info) as [k|d] eqn:Hk.
      * exists (Return tt),
               ["Read target file " +:+ path_join target_rigs fname],
               (setitem (_targetInfo w) k info).
        split_and!.
        -- erewrite bind_Return by exact Hrun1. by rewrite Hk.
        -- intros _. apply setitem_nonempty.
        -- intros _. exists [(k, info)]. split; [|done].
           by repeat constructor.
        -- done.
      * exists (Raise (TypeError "unhashable type: 'dict'")),
               ["Read target file " +:+ path_join target_rigs fname],
               (_targetInfo w).
        split_and!; [|done|done|].
        -- erewrite bind_Return by exact Hrun1. rewrite Hk. simpl.
           unfold raise. first [done | f_equal; by destruct w].
        -- intros Hwf. destruct (Hwf eq_refl) as (struct & k & ? & Hfile & Hn & _).
           unfold stored_name in Hname. rewrite Hfile, Hn in Hname.
           by simplify_eq.
    + exists (Raise e), ["Read target file " +:+ path_join target_rigs fname],
             (_targetInfo w).
      split_and!; [|done|done|].
      * erewrite bind_Raise by exact Hrun1. first [done | f_equal; by destruct w].
      * intros Hwf. by destruct (Hwf1 (Hwf eq_refl)).
    + exists Diverge, ["Read target file " +:+ path_join target_rigs fname],
             (_targetInfo w).
      split_and!; [|done|done|].
      * erewrite bind_Diverge by exact Hrun1. first [done | f_equal; by destruct w].
      * intros Hwf. by destruct (Hwf1 (Hwf eq_refl)).
  - rewrite filter_cons_False, filter_nil by (by rewrite Hcond).
    exists (Return tt), [], (_targetInfo w). split_and!; [|done| |done].
    + by rewrite set_stdout_registry_id.
    + intros _. exists []. split; [constructor|done].
Qed.

(** The loop of [initTargets] over the directory entries: it adds to the
    registry, in order, the table of every mapping file, and returns when
    each of them is well formed. *)
Lemma initTargets_for fnames w :
  ∃ r out reg',
    for_ fnames (λ fname,
      let filepath := path_join target_rigs fname in
      let '(name, ext) := splitext fname in
      is_file ← isfile filepath;
      when (bool_decide (ext = ".json") && is_file) (
        info ← call_on_new (__init__ "Manual") (readFile filepath);
        registry_setitem (info_name info) info)) w
    = (r, set_stdout (stdout w ++ out) (set__targetInfo reg' w)) ∧
    (_targetInfo w ≠ [] → reg' ≠ []) ∧
    (r = Return tt →
     ∃ loaded,
       Forall2 (loaded_from (files w))
         (path_join target_rigs <$>
            filter (λ fname, is_mapping_file (files w) fname = true) fnames)
         loaded ∧
       reg' = setitems (_targetInfo w) loaded) ∧
    (Forall (λ fname, is_mapping_file (files w) fname = true →
               well_formed_mapping_file (files w) (path_join target_rigs fname))
            fnames →
     r = Return tt).
Proof.
  revert w. induction fnames as [|fname fnames IH]; intros w.
  { exists (Return tt), [], (_targetInfo w). split_and!; [|done| |done].
    - by rewrite set_stdout_registry_id.
    - intros _. exists []. split; [constructor|done]. }
  destruct (initTargets_body fname w)
    as (r1 & out1 & reg1 & Hrun1 & Hne1 & Hret1 & Hwf1).
  destruct r1 as [[]|e|].
  - set (w1 := set_stdout (stdout w ++ out1) (set__targetInfo reg1 w)) in *.
    destruct (IH w1) as (r & out & reg' & Hrun & Hne & Hret & Hwf).
    destruct (Hret1 eq_refl) as (loaded1 & Hall1 & ->).
    exists r, (out1 ++ out), reg'. split_and!.
    + cbn [for_]. erewrite bind_Return by exact Hrun1.
      etrans; [exact Hrun|].
      f_equal. unfold w1. simpl. by rewrite <- app_assoc.
    + intros Hw. apply Hne. simpl. by apply Hne1.
    + intros Hr. destruct (Hret Hr) as (loaded & Hall & ->).
      exists (loaded1 ++ loaded). split.
      * change (fname :: fnames) with ([fname] ++ fnames).
        rewrite filter_app, fmap_app. by apply Forall2_app.
      * unfold setitems. by rewrite foldl_app.
    + intros [_ Hall]%Forall_cons. by apply Hwf.
  - exists (Raise e), out1, reg1. split_and!; [|done|done|].
    + cbn [for_]. by erewrite bind_Raise by exact Hrun1.
    + intros [Hfile _]%Forall_cons. by specialize (Hwf1 Hfile).
  - exists Diverge, out1, reg1. split_and!; [|done|done|].
    + cbn [for_]. by erewrite bind_Diverge by exact Hrun1.
    + intros [Hfile _]%Forall_cons. by specialize (Hwf1 Hfile).
Qed.

(** [initTargets] changes the registry, the items of the scene setting
    and the output only; the registry it leaves is never empty, and when
    it returns the registry is the synthetic entry followed by the
    assignments of the mapping files' tables. *)
Lemma initTargets_run w :
  ∃ r w', initTargets w = (r, w') ∧
    object w' = object w ∧ scene w' = scene w ∧ files w' = files w ∧
    utils w' = utils w ∧ _targetInfo w' ≠ [] ∧
    (r = Return tt →
     ∃ loaded,
       Forall2 (loaded_from (files w)) (mapping_files (files w)) loaded ∧
       _targetInfo w'
       = setitems [("Automatic", __init__ "Automatic")] loaded) ∧
    (is_Some (files w !! target_rigs ≫= λ node,
                match node with Dir entries => Some entries | _ => None end) →
     Forall (well_formed_mapping_file (files w)) (mapping_files (files w)) →
     r = Return tt).
Proof.
  unfold initTargets. erewrite bind_Return by done.
  unfold listdir. fold target_rigs. unfold mapping_files.
  set (w0 := set__targetInfo _ w).
  change (files w) with (files w0).
  destruct (files w0 !! target_rigs) as [[c|entries]|] eqn:Hdir.
  - eexists _, _. split.
    { erewrite bind_Raise; [done|]. erewrite bind_Return by done.
      by rewrite Hdir. }
    split_and!; try done. by intros [? ?].
  - destruct (initTargets_for entries w0)
      as (r & out & reg' & Hrun & Hne & Hret & Hwf).
    assert (Forall (well_formed_mapping_file (files w0))
              (path_join target_rigs <$>
                 filter (λ fname, is_mapping_file (files w0) fname = true) entries) →
            r = Return tt) as Hwf'.
    { intros Hall. apply Hwf. apply Forall_forall. intros fname Hin Hmf.
      apply (proj1 (Forall_forall _ _) Hall).
      apply list_elem_of_fmap. exists fname. split; [done|].
      by apply list_elem_of_filter. }
    destruct r as [[]|e|].
    + eexists _, _. split.
      { erewrite bind_Return by (erewrite bind_Return by done; by rewrite Hdir).
        erewrite bind_Return by exact Hrun.
        erewrite bind_Return by done. erewrite bind_Return by done. done. }
      split_and!; try done. simpl. by apply Hne.
    + eexists _, _. split.
      { erewrite bind_Return by (erewrite bind_Return by done; by rewrite Hdir).
        erewrite bind_Raise by exact Hrun. done. }
      split_and!; try done; try (simpl; by apply Hne);
        try (intros _ Hall; by apply Hwf').
    + eexists _, _. split.
      { erewrite bind_Return by (erewrite bind_Return by done; by rewrite Hdir).
        by erewrite bind_Diverge by exact Hrun. }
      split_and!; try done; try (simpl; by apply Hne);
        try (intros _ Hall; by apply Hwf').
  - eexists _, _. split.
    { erewrite bind_Raise; [done|]. erewrite bind_Return by done.
      by rewrite Hdir. }
    split_and!; try done. by intros [? ?].
Qed.

Lemma ensureTargetInited_inited w :
  _targetInfo w ≠ [] → ensureTargetInited w = (Return tt, w).
Proof.
  intros Hne. unfold ensureTargetInited, isTargetInited.
  erewrite bind_Return by (by erewrite bind_Return by done).
  by destruct (_targetInfo w).
Qed.

Lemma ensureTargetInited_empty w :
  _targetInfo w = [] → ensureTargetInited w = initTargets w.
Proof.
  intros Hne. unfold ensureTargetInited, isTargetInited.
  erewrite bind_Return by (by erewrite bind_Return by done).
  by rewrite Hne.
Qed.

Lemma ensureTargetInited_run w :
  ∃ r w', ensureTargetInited w = (r, w') ∧
    object w' = object w ∧ scene w' = scene w ∧ files w' = files w ∧
    utils w' = utils w ∧ (r = Return tt → _targetInfo w' ≠ []).
Proof.
  destruct (_targetInfo w) as [|e reg] eqn:Hreg.
  - rewrite (ensureTargetInited_empty w Hreg).
    destruct (initTargets_run w) as (r & w' & Hrun & ? & ? & ? & ? & ? & _ & _).
    by exists r, w'.
  - rewrite ensureTargetInited_inited by by rewrite Hreg.
    exists (Return tt), w. split_and!; try done. by rewrite Hreg.
Qed.
End initTargets_lemmas.

(** ** The first check that holds *)

Lemma find_first (A : Type) (f : A → bool) (l : list A) :
  match List.find f l with
  | Some c => ∃ pre post, l = pre ++ c :: post ∧ f c = true ∧
                          Forall (λ c', f c' = false) pre
  | None => Forall (λ c', f c' = false) l
  end.
Proof.
  induction l as [|a l IH]; simpl; [constructor|].
  destruct (f a) eqn:Ha.
  - exists [], l. by split_and!.
  - destruct (List.find f l) as [c|].
    + destruct IH as (pre & post & -> & Hc & Hpre).
      exists (a :: pre), post. split_and!; [done|done|by constructor].
    + by constructor.
Qed.

Section claims_registry.
Context `{host : Host}.
Implicit Types (w : World).

(** C4.  Rig-kind guessing returns the name of the first of the checks
    [isMhxRig], [isMakeHuman], [isRigify2], [isRigify], [isMhx7Rig],
    [isGenesis12], [isGenesis38] that holds of the armature, and
    ["Automatic"] when none holds; it can only fail to return while
    initialising an empty registry, before any check is made. *)
Theorem guessTargetArmatureFromList_first_match w :
  (∃ r w', ensureTargetInited w = (r, w') ∧ object w' = object w ∧
     guessTargetArmatureFromList w
     = match r with
       | Return _ => (Return (first_matching_kind (object w)),
                      set_stdout (stdout w' ++ ["Guessing target"]) w')
       | Raise e => (Raise e, w')
       | Diverge => (Diverge, w')
       end) ∧
  (_targetInfo w ≠ [] →
   guessTargetArmatureFromList w
   = (Return (first_matching_kind (object w)),
      set_stdout (stdout w ++ ["Guessing target"]) w)) ∧
  match List.find (λ c : (Rig → bool) * string, c.1 (object w)) rig_kind_checks with
  | Some c =>
      first_matching_kind (object w) = c.2 ∧
      ∃ pre post, rig_kind_checks = pre ++ c :: post ∧ c.1 (object w) = true ∧
                  Forall (λ c', c'.1 (object w) = false) pre
  | None =>
      first_matching_kind (object w) = "Automatic" ∧
      Forall (λ c', c'.1 (object w) = false) rig_kind_checks
  end.
Proof.
  assert (∀ w1, object w1 = object w →
            (print "Guessing target";;
             rig ← gets object;
             if isMhxRig rig then mret "MHX"
             else if isMakeHuman rig then mret "Makehuman"
             else if isRigify2 rig then mret "Rigify 2"
             else if isRigify rig then mret "Rigify"
             else if isMhx7Rig rig then mret "MH-alpha7"
             else if isGenesis12 rig then mret "Genesis 1,2"
             else if isGenesis38 rig then mret "Genesis 3,8"
             else mret "Automatic") w1
            = (Return (first_matching_kind (object w)),
               set_stdout (stdout w1 ++ ["Guessing target"]) w1)) as Hchecks.
  { intros w1 Hobj. erewrite bind_Return by done.
    erewrite bind_Return by done.
    change (object (set_stdout _ w1)) with (object w1). rewrite Hobj.
    unfold first_matching_kind, rig_kind_checks. simpl.
    destruct (isMhxRig (object w)); [done|].
    destruct (isMakeHuman (object w)); [done|].
    destruct (isRigify2 (object w)); [done|].
    destruct (isRigify (object w)); [done|].
    destruct (isMhx7Rig (object w)); [done|].
    destruct (isGenesis12 (object w)); [done|].
    by destruct (isGenesis38 (object w)). }
  split_and!.
  - destruct (ensureTargetInited_run w) as (r & w' & Hrun & Hobj & _).
    exists r, w'. split_and!; [done..|].
    unfold guessTargetArmatureFromList. destruct r as [[]|e|].
    + erewrite bind_Return by exact Hrun. by apply Hchecks.
    + by erewrite bind_Raise by exact Hrun.
    + by erewrite bind_Diverge by exact Hrun.
  - intros Hne. unfold guessTargetArmatureFromList.
    erewrite bind_Return by by apply ensureTargetInited_inited.
    by apply Hchecks.
  - pose proof (find_first _ (λ c : (Rig → bool) * string, c.1 (object w))
                  rig_kind_checks) as Hfind.
    unfold first_matching_kind.
    destruct (List.find _ rig_kind_checks) as [c|]; by split.
Qed.

(** C7.  [initTargets] returns when [target_rigs] is a directory whose
    mapping files are well formed.  When it returns, the registry has
    one entry per key; its keys are ["Automatic"] and the names stored in
    the mapping files of [target_rigs]; a name is bound to the table of the
    last file that stores it (["Automatic"], when no file stores it, to the
    synthetic entry); and when the stored names are distinct and none is
    ["Automatic"], the registry is the synthetic entry followed by one entry
    per mapping file. *)
Theorem initTargets_registry w :
  ((∃ entries, files w !! target_rigs = Some (Dir entries)) →
   Forall (well_formed_mapping_file (files w)) (mapping_files (files w)) →
   ∃ w', initTargets w = (Return tt, w')) ∧
  (∀ w', initTargets w = (Return tt, w') →
   ∃ loaded,
     Forall2 (loaded_from (files w)) (mapping_files (files w)) loaded ∧
     NoDup (_targetInfo w').*1 ∧
     (∀ k, k ∈ (_targetInfo w').*1 ↔ k = "Automatic" ∨ k ∈ loaded.*1) ∧
     (∀ k, getitem (_targetInfo w') k
           = match override_of loaded k with
             | Some info => Some info
             | None => if String.eqb "Automatic" k
                       then Some (__init__ "Automatic") else None
             end) ∧
     (NoDup ("Automatic" :: loaded.*1) →
      _targetInfo w' = ("Automatic", __init__ "Automatic") :: loaded ∧
      one_entry_per_file (files w) (_targetInfo w'))).
Proof.
  destruct (initTargets_run w)
    as (r & w2 & Hrun2 & _ & _ & _ & _ & _ & Hret & Hwf).
  split.
  - intros [entries Hdir] Hall. exists w2. rewrite Hrun2.
    rewrite Hwf; [done| |done]. rewrite Hdir. by eexists.
  - intros w' Hrun. rewrite Hrun in Hrun2. injection Hrun2 as <- <-.
    destruct (Hret eq_refl) as (loaded & Hall & Hreg).
    exists loaded. rewrite Hreg. split_and!.
    + done.
    + apply setitems_NoDup. simpl. apply NoDup_singleton.
    + intros k. rewrite setitems_keys. simpl.
      rewrite list_elem_of_singleton. done.
    + intros k. by rewrite getitem_setitems.
    + intros Hnd.
      assert (setitems [("Automatic", __init__ "Automatic")] loaded
              = ("Automatic", __init__ "Automatic") :: loaded) as ->
        by by rewrite setitems_fresh.
      split; [done|]. by exists loaded.
Qed.

(** C10.  [ensureTargetInited] does nothing when the registry is not
    empty, is [initTargets] when it is, and calling it twice in
    succession is calling it once. *)
Theorem ensureTargetInited_idempotent :
  (∀ w, _targetInfo w ≠ [] → ensureTargetInited w = (Return tt, w)) ∧
  (∀ w, _targetInfo w = [] → ensureTargetInited w = initTargets w) ∧
  (∀ w, (ensureTargetInited;; ensureTargetInited) w = ensureTargetInited w).
Proof.
  split_and!.
  - apply ensureTargetInited_inited.
  - apply ensureTargetInited_empty.
  - intros w.
    destruct (ensureTargetInited_run w) as (r & w' & Hrun & _ & _ & _ & _ & Hne).
    destruct r as [[]|e|].
    + erewrite bind_Return by exact Hrun.
      rewrite Hrun. by apply ensureTargetInited_inited, Hne.
    + erewrite bind_Raise by exact Hrun. by rewrite Hrun.
    + erewrite bind_Diverge by exact Hrun. by rewrite Hrun.
Qed.

(** C1.  A file written by [saveTargetFile] cannot be read back:
    the table is saved under the key ["armature"], [readFile] looks it up
    under ["bones"] and raises [KeyError]. *)
Theorem saveTargetFile_readFile_KeyError filepath self w :
  let produced := (splitext filepath).1 +:+ ".json" in
  ∃ w1 name arm,
    saveTargetFile filepath w = (Return tt, w1) ∧
    files w1 !! produced
    = Some (File (Some [("name", JStr name); ("url", JStr "");
                        ("armature", JDict arm)])) ∧
    ∃ w2, call_on_new self (readFile produced) w1
          = (Raise (KeyError "bones"), w2).
Proof.
  intros produced. unfold saveTargetFile.
  destruct (splitext filepath) as [fname ext] eqn:Hsplit.
  assert (produced = fname +:+ ".json") as Hprod by done.
  assert (fname +:+ "-tpose.json" ≠ fname +:+ ".json") as Hne.
  { intros Heq. by apply (inj (String.app fname)) in Heq. }
  assert (∀ w1 struct,
            files w1 !! produced = Some (File (Some struct)) →
            getitem struct "bones" = None → is_Some (getitem struct "name") →
            ∃ w2, call_on_new self (readFile produced) w1
                  = (Raise (KeyError "bones"), w2)) as Hread.
  { intros w1 struct Hfile Hbones [name Hname].
    unfold call_on_new, readFile, Method, json_load, struct_getitem.
    unfold mbind, M_bind, liftW, print, assign, modify, gets, raise, mret, M_ret.
    simpl. rewrite Hfile. simpl. rewrite Hname, Hbones. by eexists. }
  erewrite bind_Return by done. erewrite bind_Return by done.
  erewrite bind_Return by done. erewrite bind_Return by done.
  unfold when, saveTPose, saveJson.
  destruct (McpSaveTargetTPose (scene w)).
  - erewrite bind_Return by done.
    eexists _, _, _. split; [done|]. simpl.
    assert (∀ x y : fnode,
              <[fname +:+ "-tpose.json" := x]>
                (<[fname +:+ ".json" := y]> (files w)) !! produced = Some y)
      as Hlook.
    { intros x y. rewrite Hprod, lookup_insert_ne by done.
      by rewrite lookup_insert_eq. }
    split; [by apply Hlook|].
    eapply Hread; [by apply Hlook|done|by eexists].
  - eexists _, _, _. split; [done|]. simpl.
    rewrite Hprod, lookup_insert_eq. split; [done|].
    eapply Hread; [by rewrite Hprod; apply lookup_insert_eq|done|by eexists].
Qed.
End claims_registry.

(** ** The manual path of [getTargetArmature] *)

Section manual_lemmas.
Context `{host : Host}.
Implicit Types (w : World) (bs : list PoseBone).

Lemma for_print {A} (f : A → string) (l : list A) w :
  for_ l (λ x, print (f x)) w = (Return tt, set_stdout (stdout w ++ (f <$> l)) w).
Proof.
  revert w. induction l as [|x l IH]; intros w; simpl.
  - by rewrite set_stdout_id.
  - erewrite bind_Return by done. rewrite IH. simpl. by rewrite <- app_assoc.
Qed.

(** [testRig] only prints; it prints the warning when the table lists a
    bone the armature does not have. *)
Lemma testRig_for_run self name pairs w :
  ∃ out, testRig_for self name pairs w
         = (Return tt, set_stdout (stdout w ++ out) w) ∧
    (Exists (λ kv, bone_index (bones_of w) kv.1 = None) pairs →
     mismatch_warning (rig_name (object w)) name ∈ out).
Proof.
  revert w. induction pairs as [|[bname mhxname] pairs IH]; intros w; simpl.
  { exists []. rewrite set_stdout_id. split; [done|]. by intros ?%Exists_nil. }
  erewrite bind_Return by done. erewrite bind_Return by done.
  destruct (bone_index (bones_of w) bname) as [i|] eqn:Hi; simpl.
  - destruct (bones_of w !! i) as [pb|] eqn:Hpb; simpl.
    + destruct (validBone pb); simpl.
      * destruct (IH w) as (out & Hrun & Hwarn). exists out. split; [done|].
        intros [Hm|Hm]%Exists_cons; [simpl in Hm; congruence|by apply Hwarn].
      * eexists. split.
        { erewrite bind_Return by done. erewrite bind_Return by done.
          rewrite for_print. simpl. rewrite <- !app_assoc. done. }
        intros _. right. by left.
    + eexists. split.
      { erewrite bind_Return by done. erewrite bind_Return by done.
        rewrite for_print. simpl. rewrite <- !app_assoc. done. }
      intros _. right. by left.
  - eexists. split.
    { erewrite bind_Return by done. erewrite bind_Return by done.
      rewrite for_print. simpl. rewrite <- !app_assoc. done. }
    intros _. right. by left.
Qed.

Lemma testRig_run self name w :
  ∃ out, testRig self name w = (Return tt, set_stdout (stdout w ++ out) w) ∧
    (Exists (λ kv, bone_index (bones_of w) kv.1 = None) (info_bones self) →
     mismatch_warning (rig_name (object w)) name ∈ out).
Proof.
  unfold testRig.
  destruct (testRig_for_run self name (info_bones self)
              (set_stdout (stdout w ++ ["Testing " +:+ name]) w))
    as (out & Hrun & Hwarn).
  exists (("Testing " +:+ name) :: out). split.
  - erewrite bind_Return by done. rewrite Hrun. simpl. by rewrite <- app_assoc.
  - intros Hm. right. by apply Hwarn.
Qed.

(** When the selected table has no override for a bone the armature lacks,
    the manual path returns the table: the roles are those of the table,
    missing bones skipped, and the warning is printed when a listed bone is
    missing. *)
Lemma getTargetArmature_manual name info d w :
  _targetInfo w ≠ [] → McpTargetRig (scene w) = name → name ≠ "Automatic" →
  getitem (_targetInfo w) name = Some info →
  wf_bones (bones_of w) → info_parents info = JDict d →
  (∀ k, k ∈ d.*1 → is_Some (bone_index (bones_of w) k)) →
  ∃ w', getTargetArmature w = (Return info, w') ∧
    (∀ i pb, bones_of w !! i = Some pb →
       ∃ pb', bones_of w' !! i = Some pb' ∧ pb_name pb' = pb_name pb ∧
              McpBone pb' = default "" (override_of (info_bones info) (pb_name pb))) ∧
    (Exists (λ kv, bone_index (bones_of w) kv.1 = None) (info_bones info) →
     mismatch_warning (rig_name (object w)) name ∈ stdout w').
Proof.
  intros Hreg Hsel Hname Hinfo Hwf Hp Hd.
  unfold getTargetArmature.
  erewrite bind_Return by done.
  erewrite bind_Return by by apply ensureTargetInited_inited.
  erewrite bind_Return by done.
  change (McpTargetRig (scene (set_utils _ w))) with (McpTargetRig (scene w)).
  rewrite Hsel, (bool_decide_eq_false_2 _ Hname).
  erewrite bind_Return by done. rewrite (bool_decide_eq_false_2 _ Hname).
  erewrite bind_Return by done. erewrite bind_Return by done.
  erewrite bind_Return.
  2:{ unfold getTargetInfo. erewrite bind_Return by done. simpl.
      by rewrite Hinfo. }
  set (w3 := set_scene _ _).
  destruct (testRig_run info name w3) as (out1 & Hrun1 & Hwarn).
  erewrite bind_Return by exact Hrun1.
  erewrite bind_Return by done.
  set (w5 := set_stdout _ (set_stdout _ w3)).
  destruct (addManualBones_run info w5) as [out2 Hman].
  set (w6 := set_stdout _ _) in Hman.
  assert (wf_bones (bones_of w6)) as Hwf6
    by by apply (addManualBones_wf (info_bones info)).
  assert (pb_name <$> bones_of w6 = pb_name <$> bones_of w) as Hnames.
  { unfold w6. change (bones_of (set_stdout _ (set_bones ?bs _))) with bs.
    rewrite assign_all_proj by done. rewrite <- list_fmap_compose.
    by apply list_fmap_ext. }
  destruct (addParents_Return info d w6 Hwf6 Hp) as [out3 Hpar].
  { apply present_Forall. intros k Hk.
    rewrite (bone_index_same_names _ (bones_of w)) by done. by apply Hd. }
  erewrite bind_Return by (rewrite Hman; exact Hpar).
  erewrite bind_Return by done.
  eexists. split; [done|]. split.
  - intros i pb Hi.
    change (bones_of (set_utils _ (set_stdout _ (set_bones ?bs _)))) with bs.
    destruct (addManualBones_roles (info_bones info) (bones_of w) i pb
                (proj1 Hwf) Hi) as (pb2 & Hi2 & Hn2 & Hr2).
    change (bones_of w6) with (assign_all set_McpBone (info_bones info)
                                 (set_McpBone "" <$> bones_of w)).
    pose proof (skel_lookup _ _ i
                  (assign_all_skel d
                     (addParents_step
                        (assign_all set_McpBone (info_bones info)
                           (set_McpBone "" <$> bones_of w)) <$>
                      assign_all set_McpBone (info_bones info)
                        (set_McpBone "" <$> bones_of w)))) as Hl.
    rewrite list_lookup_fmap, Hi2 in Hl. simpl in Hl.
    rewrite addParents_step_skel in Hl.
    destruct (assign_all set_McpParent d _ !! i) as [pb'|]; [|done].
    injection Hl as Hn' _ Hr'. exists pb'. split_and!; [done|congruence|congruence].
  - intros Hm. simpl. rewrite !elem_of_app. left. left. left. right.
    by apply Hwarn.
Qed.
End manual_lemmas.

(** * Further properties of the module *)

(** ** [readFile] *)

Section readFile_properties.
Context `{host : Host}.
Implicit Types (w : World).

(** X1.  [readFile] returns exactly when the path holds a JSON object with a
    ["name"] member and a ["bones"] member that is an object.  The table
    then has that name, the path it was read from, the pairs of ["bones"]
    in document order with [nameOrNone] applied to the roles, and the
    ["parents"] member of the file, or, when the file has none, the
    overrides the object had before the call. *)
Theorem readFile_returns_iff_readable filepath self w :
  ∃ r self',
    readFile filepath (self, w)
    = (r, (self', set_stdout (stdout w ++ ["Read target file " +:+ filepath]) w)) ∧
    (r = Return tt ↔
     ∃ struct name bones,
       files w !! filepath = Some (File (Some struct)) ∧
       getitem struct "name" = Some name ∧
       getitem struct "bones" = Some (JDict bones)) ∧
    (∀ struct name bones,
       files w !! filepath = Some (File (Some struct)) →
       getitem struct "name" = Some name →
       getitem struct "bones" = Some (JDict bones) →
       self' = mkCTargetInfo name filepath
                 ((λ kv, (kv.1, nameOrNone kv.2)) <$> bones)
                 (default (info_parents self) (getitem struct "parents"))).
Proof.
  unfold readFile, Method, json_load, struct_getitem, items.
  unfold mbind, M_bind, liftW, print, assign, modify, gets, raise, mret, M_ret.
  simpl.
  destruct (files w !! filepath) as [[[struct|]|]|]; simpl;
    try (eexists _, _; split_and!; [done| |by intros];
         split; [done|by intros (? & ? & ? & ? & _)]).
  destruct (getitem struct "name") as [name|] eqn:Hname; simpl.
  2:{ eexists _, _. split_and!; [done| |by intros; simplify_eq].
      split; [done|]. intros (? & ? & ? & ? & ? & _). simplify_eq. }
  destruct (getitem struct "bones") as [[s|d]|] eqn:Hbones; simpl;
    try (eexists _, _; split_and!; [done| |by intros; simplify_eq];
         split; [done|]; intros (? & ? & ? & ? & ? & ?); simplify_eq).
  assert (((λ '(key, value), (key, nameOrNone value)) <$> d)
          = ((λ kv : string * string, (kv.1, nameOrNone kv.2)) <$> d)) as Hmap.
  { apply list_fmap_ext. by intros ? [? ?] _. }
  destruct (getitem struct "parents") as [parents|] eqn:Hpar; simpl;
    (eexists _, _; split_and!; [done| |]).
  - split; [|done]. intros _. by eexists _, _, _.
  - intros ? ? ? ? ? ?. simplify_eq. unfold set_info_bones. simpl.
    by rewrite Hmap, Hpar.
  - split; [|done]. intros _. by eexists _, _, _.
  - intros ? ? ? ? ? ?. simplify_eq. unfold set_info_bones. simpl.
    rewrite Hmap, Hpar. by destruct self.
Qed.

(** X2.  How [readFile] fails: [OSError] for a path that is no regular file,
    [JSONDecodeError] for a file that is not JSON, [KeyError] for the first
    of ["name"] and ["bones"] that the object lacks, [AttributeError] when
    ["bones"] is a string.  Whatever the failure, the one printed line is
    all that changes in the world. *)
Theorem readFile_failures filepath self w :
  ∃ r self',
    readFile filepath (self, w)
    = (r, (self', set_stdout (stdout w ++ ["Read target file " +:+ filepath]) w)) ∧
    ((∀ c, files w !! filepath ≠ Some (File c)) → r = Raise (OSError filepath)) ∧
    (files w !! filepath = Some (File None) → r = Raise (JSONDecodeError filepath)) ∧
    (∀ struct, files w !! filepath = Some (File (Some struct)) →
       (getitem struct "name" = None → r = Raise (KeyError "name")) ∧
       (is_Some (getitem struct "name") → getitem struct "bones" = None →
        r = Raise (KeyError "bones")) ∧
       (is_Some (getitem struct "name") →
        (∃ s, getitem struct "bones" = Some (JStr s)) →
        ∃ msg, r = Raise (AttributeError msg))).
Proof.
  unfold readFile, Method, json_load, struct_getitem, items.
  unfold mbind, M_bind, liftW, print, assign, modify, gets, raise, mret, M_ret.
  simpl.
  destruct (files w !! filepath) as [[[struct|]|]|] eqn:Hfile; simpl.
  - destruct (getitem struct "name") as [name|] eqn:Hname; simpl.
    + destruct (getitem struct "bones") as [[s|d]|] eqn:Hbones; simpl.
      * eexists _, _. split_and!; [done|by intros H; destruct (H (Some struct))|done|].
        intros ? ?. simplify_eq. rewrite Hname, Hbones.
        split_and!; [done|done|]. intros _ _. by eexists.
      * destruct (getitem struct "parents"); simpl;
          (eexists _, _; split_and!;
           [done|by intros H; destruct (H (Some struct))|done|]);
          intros ? ?; simplify_eq; rewrite Hname, Hbones;
          (split_and!; [done|done|]); by intros _ [? ?].
      * eexists _, _. split_and!; [done|by intros H; destruct (H (Some struct))|done|].
        intros ? ?. simplify_eq. rewrite Hname, Hbones.
        split_and!; [done|done|]. by intros _ [? ?].
    + eexists _, _. split_and!; [done|by intros H; destruct (H (Some struct))|done|].
      intros ? ?. simplify_eq. rewrite Hname.
      split_and!; [done|by intros [? ?]|by intros [? ?]].
  - eexists _, _. split_and!; [done|by intros H; destruct (H None)|done|done].
  - eexists _, _. split_and!; [done|done|done|done].
  - eexists _, _. split_and!; [done|done|done|done].
Qed.
End readFile_properties.

(** ** [addParents] *)

Lemma set_McpParent_skel v pb1 pb2 :
  skel pb1 = skel pb2 → set_McpParent v pb1 = set_McpParent v pb2.
Proof. intros Hs. injection Hs as Hn Hp Hr. unfold set_McpParent. congruence. Qed.

Lemma addParents_step_same_skel (bs1 bs2 : list PoseBone) pb :
  skel <$> bs1 = skel <$> bs2 → addParents_step bs1 pb = addParents_step bs2 pb.
Proof.
  intros Hs. unfold addParents_step.
  rewrite (skel_length _ _ Hs).
  by rewrite (while_par_skel _ bs1 bs2 (parent_of bs1 pb) (parent_of bs2 pb) Hs
                (skel_parent_of bs1 bs2 pb pb Hs eq_refl)).
Qed.

Lemma addParents_step_idemp (bs : list PoseBone) pb :
  addParents_step bs (addParents_step bs pb) = addParents_step bs pb.
Proof.
  unfold addParents_step at 2 3.
  destruct (truthy (McpBone pb)) eqn:Hrole.
  - assert (∀ v, addParents_step bs (set_McpParent v pb)
                 = match while_par (length bs) bs (parent_of bs pb) with
                   | Some (Some par_name) => set_McpParent par_name pb
                   | _ => set_McpParent "" pb
                   end) as Hset.
    { intros v. unfold addParents_step. simpl. rewrite Hrole.
      change (parent_of bs (set_McpParent v pb)) with (parent_of bs pb).
      by destruct (while_par _ _ _) as [[?|]|]. }
    destruct (while_par _ _ _) as [[nm|]|] eqn:Hw; by rewrite Hset.
  - unfold addParents_step. by rewrite Hrole.
Qed.

Section addParents_properties.
Context `{host : Host}.
Implicit Types (w : World) (bs : list PoseBone).

(** The override loop, whatever its outcome, only alters parent-roles. *)
Lemma addParents_overrides_frame d w r w' :
  for_ d (λ '(bname, pname),
    bs ← gets bones_of;
    match bone_index bs bname with
    | Some i => update_bone i (set_McpParent pname)
    | None => raise (KeyError bname)
    end) w = (r, w') →
  ∃ bs', w' = set_bones bs' w ∧ skel <$> bs' = skel <$> bones_of w.
Proof.
  revert w. induction d as [|[k v] d IH]; intros w Hrun.
  - injection Hrun as <- <-. exists (bones_of w). by rewrite set_bones_id.
  - simpl in Hrun.
    destruct (bone_index (bones_of w) k) as [i|] eqn:Hi.
    + erewrite bind_Return in Hrun
        by (erewrite bind_Return by done; by rewrite Hi).
      apply IH in Hrun as (bs' & -> & Hs). exists bs'.
      split; [done|]. rewrite Hs. by apply skel_alter.
    + erewrite bind_Raise in Hrun
        by (erewrite bind_Return by done; by rewrite Hi).
      injection Hrun as <- <-. exists (bones_of w). by rewrite set_bones_id.
Qed.

(** Whatever its outcome, [addParents] leaves a world that differs from the
    one it started in by parent-roles and output only. *)
Lemma addParents_frame self w r w' :
  wf_bones (bones_of w) → addParents self w = (r, w') →
  ∃ bs' out, w' = set_stdout (stdout w ++ out) (set_bones bs' w) ∧
             skel <$> bs' = skel <$> bones_of w.
Proof.
  intros Hwf Hrun. unfold addParents in Hrun.
  erewrite bind_Return in Hrun by (by apply addParents_walk).
  set (w1 := set_bones _ w) in Hrun.
  destruct (info_parents self) as [s|d] eqn:Hp.
  - erewrite bind_Raise in Hrun by done. injection Hrun as <- <-.
    exists (addParents_step (bones_of w) <$> bones_of w), [].
    split; [by rewrite app_nil_r|]. apply addParents_step_skel_map.
  - erewrite bind_Return in Hrun by done.
    destruct (for_ d (λ '(bname, pname),
                bs ← gets bones_of;
                match bone_index bs bname with
                | Some i => update_bone i (set_McpParent pname)
                | None => raise (KeyError bname)
                end) w1) as [r1 w2] eqn:Hfor.
    destruct (addParents_overrides_frame d w1 r1 w2 Hfor) as (bs' & -> & Hs').
    assert (skel <$> bs' = skel <$> bones_of w) as Hs
      by (rewrite Hs'; apply addParents_step_skel_map).
    destruct r1 as [[]|e|].
    + erewrite bind_Return in Hrun by exact Hfor.
      destruct (addParents_report (set_bones bs' w1)) as [out Hout].
      rewrite Hout in Hrun. injection Hrun as <- <-. by exists bs', out.
    + erewrite bind_Raise in Hrun by exact Hfor.
      injection Hrun as <- <-. exists bs', []. by rewrite app_nil_r.
    + erewrite bind_Diverge in Hrun by exact Hfor.
      injection Hrun as <- <-. exists bs', []. by rewrite app_nil_r.
Qed.

Lemma wf_bones_same_skel bs1 bs2 :
  skel <$> bs1 = skel <$> bs2 → wf_bones bs1 → wf_bones bs2.
Proof.
  intros Hs. apply wf_bones_same_links; [by apply skel_names|].
  assert (∀ bs : list PoseBone,
            pb_parent <$> bs = (λ s, s.1.2) <$> (skel <$> bs)) as Hpar.
  { intros bs. by rewrite <- list_fmap_compose. }
  by rewrite !Hpar, Hs.
Qed.

(** X3.  Whatever its outcome, [addParents] changes nothing of the world but
    the parent-roles of the bones and the output: the bones keep their
    number, order, names, parent links and roles, and the registry, the
    scene and the files are as before. *)
Theorem addParents_changes_parent_roles_only self w r w' :
  wf_bones (bones_of w) → addParents self w = (r, w') →
  skel <$> bones_of w' = skel <$> bones_of w ∧
  length (bones_of w') = length (bones_of w) ∧
  wf_bones (bones_of w') ∧
  rig_name (object w') = rig_name (object w) ∧
  McpTPoseFile (object w') = McpTPoseFile (object w) ∧
  _targetInfo w' = _targetInfo w ∧ scene w' = scene w ∧ files w' = files w.
Proof.
  intros Hwf Hrun.
  destruct (addParents_frame self w r w' Hwf Hrun) as (bs' & out & -> & Hs).
  change (bones_of (set_stdout _ (set_bones ?bs _))) with bs.
  split_and!; try done.
  - by apply skel_length.
  - by apply (wf_bones_same_skel (bones_of w)).
Qed.

(** X4.  [addParents] never touches a bone without a role unless the
    override table lists it: such a bone keeps the parent-role it had, even
    a stale one. *)
Theorem addParents_keeps_roleless_bones self d w :
  wf_bones (bones_of w) → info_parents self = JDict d →
  (∀ k, k ∈ d.*1 → is_Some (bone_index (bones_of w) k)) →
  ∃ w', addParents self w = (Return tt, w') ∧
    ∀ i pb, bones_of w !! i = Some pb → McpBone pb = "" →
      pb_name pb ∉ d.*1 → bones_of w' !! i = Some pb.
Proof.
  intros Hwf Hp Hd.
  destruct (addParents_resolved self d w Hwf Hp (present_Forall _ _ Hd))
    as (w' & Hrun & _ & _ & Hlook & _).
  exists w'. split; [done|]. intros i pb Hi Hrole Hnov.
  rewrite (Hlook i pb Hi), (proj2 (override_of_None d _) Hnov). simpl.
  unfold addParents_step. by rewrite (proj2 (truthy_false _) Hrole).
Qed.

(** Running [addParents] on its own result leaves the bones as they are. *)
Lemma addParents_again self d w w1 :
  wf_bones (bones_of w) → info_parents self = JDict d →
  Forall (λ kv, is_Some (bone_index (bones_of w) kv.1)) d →
  addParents self w = (Return tt, w1) →
  ∃ w2, addParents self w1 = (Return tt, w2) ∧ bones_of w2 = bones_of w1.
Proof.
  intros Hwf Hp Hd Hrun.
  destruct (addParents_resolved self d w Hwf Hp Hd)
    as (w1' & Hrun1 & Hs1 & _ & Hlook1 & _).
  rewrite Hrun in Hrun1. injection Hrun1 as <-.
  assert (wf_bones (bones_of w1)) as Hwf1
    by by apply (wf_bones_same_skel (bones_of w)).
  assert (Forall (λ kv, is_Some (bone_index (bones_of w1) kv.1)) d) as Hd1.
  { eapply Forall_impl; [exact Hd|]. intros [k v] Hk. simpl in *.
    by rewrite (bone_index_same_names _ (bones_of w)) by by apply skel_names. }
  destruct (addParents_resolved self d w1 Hwf1 Hp Hd1)
    as (w2 & Hrun2 & Hs2 & _ & Hlook2 & _).
  exists w2. split; [done|].
  apply list_eq. intros i.
  destruct (bones_of w !! i) as [pb|] eqn:Hi.
  - pose proof (Hlook1 i pb Hi) as Hi1. rewrite (Hlook2 i _ Hi1), Hi1.
    f_equal.
    pose proof (addParents_step_skel (bones_of w) pb) as Hsk.
    assert (pb_name (addParents_step (bones_of w) pb) = pb_name pb) as Hn
      by by injection Hsk.
    rewrite (addParents_step_same_skel (bones_of w1) (bones_of w)) by done.
    destruct (override_of d (pb_name pb)) as [v|] eqn:Hov; simpl.
    + change (pb_name (set_McpParent v ?x)) with (pb_name x).
      rewrite Hn, Hov. simpl. apply set_McpParent_skel.
      by rewrite addParents_step_skel.
    + rewrite Hn, Hov. simpl. apply addParents_step_idemp.
  - apply lookup_ge_None in Hi.
    rewrite !(proj2 (lookup_ge_None _ _)); [done|..].
    + by rewrite (skel_length _ _ Hs1).
    + by rewrite (skel_length _ _ Hs2), (skel_length _ _ Hs1).
Qed.

(** X5.  [addParents] is idempotent on the armature: when it returns, a
    second call returns too and leaves every bone as the first call left
    it. *)
Theorem addParents_idempotent self w w1 :
  wf_bones (bones_of w) → addParents self w = (Return tt, w1) →
  ∃ w2, addParents self w1 = (Return tt, w2) ∧ bones_of w2 = bones_of w1.
Proof.
  intros Hwf Hrun.
  destruct (addParents_Return_inv self w w1 Hwf Hrun) as (d & Hp & Hd).
  by apply (addParents_again self d w).
Qed.
End addParents_properties.

(** ** Applying a table twice *)

Lemma role_pairs_skel (bs1 bs2 : list PoseBone) :
  skel <$> bs1 = skel <$> bs2 → role_pairs bs1 = role_pairs bs2.
Proof.
  revert bs2. induction bs1 as [|pb1 bs1 IH]; intros [|pb2 bs2] Hs; try done.
  injection Hs as Hn Hp Hr Hs. unfold role_pairs in *.
  rewrite !filter_cons. rewrite Hr.
  destruct (decide (McpBone pb2 ≠ "")); simpl; rewrite ?Hn, ?Hr; [f_equal|];
    by apply IH.
Qed.

Lemma role_pairs_keys (bs : list PoseBone) :
  (role_pairs bs).*1 = pb_name <$> filter (λ pb, McpBone pb ≠ "") bs.
Proof. unfold role_pairs. by rewrite <- list_fmap_compose. Qed.

Lemma role_pairs_NoDup (bs : list PoseBone) :
  NoDup (pb_name <$> bs) → NoDup (role_pairs bs).*1.
Proof.
  intros Hnd. rewrite role_pairs_keys.
  apply (sublist_NoDup _ (pb_name <$> bs)); [done|].
  apply fmap_sublist, sublist_filter.
Qed.

Lemma role_pairs_elem (bs : list PoseBone) k r :
  (k, r) ∈ role_pairs bs ↔ ∃ pb, pb ∈ bs ∧ pb_name pb = k ∧ McpBone pb = r ∧ r ≠ "".
Proof.
  unfold role_pairs. rewrite list_elem_of_fmap. split.
  - intros (pb & [= -> ->] & Hin). apply list_elem_of_filter in Hin as [Hr Hin].
    by exists pb.
  - intros (pb & Hin & <- & <- & Hr). exists pb. split; [done|].
    by apply list_elem_of_filter.
Qed.

(** The table collected from an armature gives every bone its own role. *)
Lemma role_pairs_override (bs : list PoseBone) i pb :
  NoDup (pb_name <$> bs) → bs !! i = Some pb →
  default "" (override_of (role_pairs bs) (pb_name pb)) = McpBone pb.
Proof.
  intros Hnd Hi.
  destruct (decide (McpBone pb = "")) as [Hr|Hr].
  - rewrite (proj2 (override_of_None (role_pairs bs) (pb_name pb))); [done|].
    intros Hin. apply list_elem_of_fmap in Hin as ([k r] & Hk & Hin).
    simpl in Hk. subst k.
    apply role_pairs_elem in Hin as (pb' & Hin' & Hn & Hrr & Hr').
    apply list_elem_of_lookup in Hin' as [j Hj].
    assert (i = j) as ->.
    { eapply NoDup_lookup; [exact Hnd|..];
        rewrite list_lookup_fmap; [by rewrite Hi|by rewrite Hj, <- Hn]. }
    congruence.
  - rewrite (override_of_NoDup (role_pairs bs) (pb_name pb) (McpBone pb));
      [done|by apply role_pairs_NoDup|].
    apply role_pairs_elem. exists pb. split_and!; try done.
    by eapply list_elem_of_lookup_2.
Qed.

(** Applying a table to an armature whose roles are already those of the
    table changes nothing. *)
Lemma assign_all_roles_fixed tbl (bs : list PoseBone) :
  NoDup (pb_name <$> bs) →
  (∀ i pb, bs !! i = Some pb →
     McpBone pb = default "" (override_of tbl (pb_name pb))) →
  assign_all set_McpBone tbl (set_McpBone "" <$> bs) = bs.
Proof.
  intros Hnd Hroles. apply list_eq. intros i.
  destruct (bs !! i) as [pb|] eqn:Hi.
  - rewrite (assign_all_lookup set_McpBone tbl _ i (set_McpBone "" pb));
      [|done|done|by rewrite <- list_fmap_compose
       |by rewrite list_lookup_fmap, Hi].
    f_equal. specialize (Hroles i pb Hi). simpl.
    destruct (override_of tbl (pb_name pb)) as [v|]; simpl in *;
      destruct pb; simpl in *; by subst.
  - apply lookup_ge_None in Hi. apply lookup_ge_None.
    assert (length (assign_all set_McpBone tbl (set_McpBone "" <$> bs))
            = length bs) as ->; [|done].
    rewrite <- (length_fmap pb_name), (assign_all_proj pb_name) by done.
    by rewrite !length_fmap.
Qed.

Section mapping_properties.
Context `{host : Host}.
Implicit Types (w : World) (bs : list PoseBone).

(** What [addParents] does to the bones depends on the bones alone. *)
Lemma addParents_same_bones self w w0 w1 :
  wf_bones (bones_of w) → bones_of w0 = bones_of w →
  addParents self w = (Return tt, w1) →
  ∃ w2, addParents self w0 = (Return tt, w2) ∧ bones_of w2 = bones_of w1.
Proof.
  intros Hwf Hbs Hrun.
  destruct (addParents_Return_inv self w w1 Hwf Hrun) as (d & Hp & Hd).
  destruct (addParents_Return self d w Hwf Hp Hd) as [out Hout].
  rewrite Hrun in Hout. injection Hout as ->.
  destruct (addParents_Return self d w0) as [out0 Hout0];
    [by rewrite ?Hbs..|].
  eexists. split; [exact Hout0|].
  change (bones_of (set_stdout _ (set_bones ?bs _))) with bs. by rewrite Hbs.
Qed.

(** A manual application that finds the roles of its table in place comes
    down to [addParents]. *)
Lemma addManualBones_in_place self w :
  NoDup (pb_name <$> bones_of w) →
  (∀ i pb, bones_of w !! i = Some pb →
     McpBone pb = default "" (override_of (info_bones self) (pb_name pb))) →
  ∃ out, addManualBones self w = addParents self (set_stdout (stdout w ++ out) w).
Proof.
  intros Hnd Hroles. destruct (addManualBones_run self w) as [out Hout].
  exists out. rewrite Hout, assign_all_roles_fixed by done.
  by rewrite set_bones_id.
Qed.

(** X6.  Identifying a rig automatically and then applying the table that
    was collected as a manual table returns and leaves every bone as the
    automatic identification left it. *)
Theorem addAutoBones_then_addManualBones self w self' w1 :
  wf_bones (bones_of w) →
  addAutoBones (self, w) = (Return tt, (self', w1)) →
  ∃ w2, addManualBones self' w1 = (Return tt, w2) ∧ bones_of w2 = bones_of w1.
Proof.
  intros Hwf Hrun. rewrite addAutoBones_run in Hrun. simpl in Hrun.
  destruct (addParents _ w) as [r w1'] eqn:Hpar.
  injection Hrun as -> <- ->.
  pose proof (addParents_skel _ _ _ _ Hwf Hpar) as Hs.
  assert (wf_bones (bones_of w1)) as Hwf1
    by (by apply (wf_bones_same_skel (bones_of w))).
  set (self' := set_info_bones (role_pairs (bones_of w)) self) in *.
  destruct (addManualBones_in_place self' w1) as [out Hout].
  { apply Hwf1. }
  { intros i pb Hi. simpl. rewrite <- (role_pairs_skel _ _ Hs).
    symmetry. apply (role_pairs_override _ i); [apply Hwf1|done]. }
  rewrite Hout.
  destruct (addParents_Return_inv _ _ _ Hwf Hpar) as (d & Hp & Hd).
  destruct (addParents_again self' d w w1 Hwf Hp Hd Hpar) as (w2 & Hrun2 & Hbs2).
  destruct (addParents_same_bones self' w1 (set_stdout (stdout w1 ++ out) w1) w2)
    as (w3 & Hrun3 & Hbs3); [done..|].
  exists w3. split; [done|]. by rewrite Hbs3.
Qed.

(** X7.  [addManualBones] is idempotent on the armature: when it returns,
    applying the same table again returns too and leaves every bone as
    it is. *)
Theorem addManualBones_idempotent self w w1 :
  wf_bones (bones_of w) →
  addManualBones self w = (Return tt, w1) →
  ∃ w2, addManualBones self w1 = (Return tt, w2) ∧ bones_of w2 = bones_of w1.
Proof.
  intros Hwf Hrun. destruct (addManualBones_run self w) as [out Hout].
  rewrite Hrun in Hout. symmetry in Hout.
  set (wm := set_stdout _ _) in Hout.
  assert (wf_bones (bones_of wm)) as Hwfm by (by apply addManualBones_wf).
  pose proof (addParents_skel _ _ _ _ Hwfm Hout) as Hs.
  assert (wf_bones (bones_of w1)) as Hwf1
    by (by apply (wf_bones_same_skel (bones_of wm))).
  destruct (addManualBones_in_place self w1) as [out1 Hout1].
  { apply Hwf1. }
  { intros i pb1 Hi1.
    pose proof (skel_lookup _ _ i Hs) as Hsi. rewrite Hi1 in Hsi.
    destruct (bones_of wm !! i) as [pbm|] eqn:Him; [|done].
    injection Hsi as Hn _ Hr. rewrite Hn, Hr.
    assert (is_Some (bones_of w !! i)) as [pb Hi].
    { apply lookup_lt_is_Some. apply lookup_lt_Some in Him.
      unfold wm in Him.
      change (bones_of (set_stdout _ (set_bones ?bs _))) with bs in Him.
      rewrite <- (length_fmap pb_name), (assign_all_proj pb_name) in Him by done.
      by rewrite !length_fmap in Him. }
    destruct (addManualBones_roles (info_bones self) (bones_of w) i pb)
      as (pb' & Hi' & Hn' & Hr'); [apply Hwf|done|].
    unfold wm in Him.
    change (bones_of (set_stdout _ (set_bones ?bs _))) with bs in Him.
    rewrite Him in Hi'. injection Hi' as <-. by rewrite Hr', Hn'. }
  rewrite Hout1.
  destruct (addParents_Return_inv _ _ _ Hwfm Hout) as (d & Hp & Hd).
  destruct (addParents_again self d wm w1 Hwfm Hp Hd Hout) as (w2 & Hrun2 & Hbs2).
  destruct (addParents_same_bones self w1 (set_stdout (stdout w1 ++ out1) w1) w2)
    as (w3 & Hrun3 & Hbs3); [done..|].
  exists w3. split; [done|]. by rewrite Hbs3.
Qed.
End mapping_properties.

(** ** [testRig] *)

Section testRig_properties.
Context `{host : Host}.
Implicit Types (w : World).

Lemma testRig_for_cons self name bname mhxname pairs w :
  testRig_for self name ((bname, mhxname) :: pairs) w
  = if bone_usable (bones_of w) bname then testRig_for self name pairs w
    else (Return tt,
          set_stdout (stdout w ++ mismatch_report self (rig_name (object w)) name
                                    bname mhxname) w).
Proof.
  cbn [testRig_for]. erewrite bind_Return by done. erewrite bind_Return by done.
  unfold bone_usable.
  assert (∀ w0 : World,
            (print ("  Did not find bone " +:+ bname +:+ " (" +:+ mhxname +:+ ")");;
             print (mismatch_warning (rig_name (object w)) name);;
             for_ (info_bones self) (λ pair,
               print ("  " +:+ pair.1 +:+ " : " +:+ pair.2))) w0
            = (Return tt,
               set_stdout (stdout w0 ++ mismatch_report self (rig_name (object w))
                                          name bname mhxname) w0)) as Hrep.
  { intros w0. erewrite bind_Return by done. erewrite bind_Return by done.
    rewrite for_print. unfold mismatch_report. f_equal.
    destruct w0. unfold set_stdout. simpl. by rewrite <- !app_assoc. }
  destruct (bone_index (bones_of w) bname ≫= _) as [pb|]; simpl; [|apply Hrep].
  destruct (validBone pb); simpl; [done|apply Hrep].
Qed.

Lemma testRig_for_usable self name pairs w :
  Forall (λ kv, bone_usable (bones_of w) kv.1 = true) pairs →
  testRig_for self name pairs w = (Return tt, w).
Proof.
  induction 1 as [|[bname mhxname] pairs Hb _ IH]; [done|].
  rewrite testRig_for_cons. simpl in Hb. by rewrite Hb.
Qed.

Lemma testRig_for_first self name pre bname mhxname post w :
  Forall (λ kv, bone_usable (bones_of w) kv.1 = true) pre →
  bone_usable (bones_of w) bname = false →
  testRig_for self name (pre ++ (bname, mhxname) :: post) w
  = (Return tt,
     set_stdout (stdout w ++ mismatch_report self (rig_name (object w)) name
                               bname mhxname) w).
Proof.
  intros Hpre Hbad. induction Hpre as [|[b m] pre Hb _ IH].
  - simpl app. by rewrite testRig_for_cons, Hbad.
  - simpl app. rewrite testRig_for_cons. simpl in Hb. by rewrite Hb.
Qed.

(** X8.  [testRig] never raises and changes nothing but the output.  When
    every bone of the table is a valid bone of the armature it prints its
    heading only; otherwise it reports the first pair of the table that is
    not, then the warning, then the whole table, and looks no further. *)
Theorem testRig_reports_first_mismatch self name w :
  (Forall (λ kv, bone_usable (bones_of w) kv.1 = true) (info_bones self) →
   testRig self name w
   = (Return tt, set_stdout (stdout w ++ ["Testing " +:+ name]) w)) ∧
  (∀ pre bname mhxname post,
     info_bones self = pre ++ (bname, mhxname) :: post →
     Forall (λ kv, bone_usable (bones_of w) kv.1 = true) pre →
     bone_usable (bones_of w) bname = false →
     testRig self name w
     = (Return tt,
        set_stdout (stdout w ++ ("Testing " +:+ name) ::
                      mismatch_report self (rig_name (object w)) name
                        bname mhxname) w)).
Proof.
  split.
  - intros Hall. unfold testRig. erewrite bind_Return by done.
    by rewrite testRig_for_usable.
  - intros pre bname mhxname post Htbl Hpre Hbad.
    unfold testRig. erewrite bind_Return by done.
    rewrite Htbl, testRig_for_first by done.
    f_equal. destruct w. unfold set_stdout. simpl. by rewrite <- app_assoc.
Qed.
End testRig_properties.

(** ** [findTargetKeys] *)

Lemma findTargetKeys_role_pairs (bs : list PoseBone) mhx :
  mhx ≠ "" →
  findTargetKeys mhx (role_pairs bs)
  = pb_name <$> filter (λ pb, McpBone pb = mhx) bs.
Proof.
  intros Hmhx. unfold findTargetKeys, role_pairs.
  induction bs as [|pb bs IH]; [done|].
  rewrite (filter_cons (λ pb, McpBone pb = mhx)), (filter_cons (λ pb, McpBone pb ≠ "")).
  destruct (decide (McpBone pb = mhx)) as [Hr|Hr].
  - rewrite decide_True by congruence. rewrite fmap_cons, filter_cons_True by done.
    rewrite !fmap_cons. by f_equal.
  - destruct (decide (McpBone pb ≠ "")); [|done].
    by rewrite fmap_cons, filter_cons_False by done.
Qed.

Lemma findTargetKeys_role_pairs_empty (bs : list PoseBone) :
  findTargetKeys "" (role_pairs bs) = [].
Proof.
  unfold findTargetKeys, role_pairs.
  induction bs as [|pb bs IH]; [done|].
  rewrite (filter_cons (λ pb, McpBone pb ≠ "")).
  destruct (decide (McpBone pb ≠ "")); [|done].
  by rewrite fmap_cons, filter_cons_False by done.
Qed.

Section findTargetKeys_properties.
Context `{host : Host}.
Implicit Types (w : World).

(** X9.  After [addAutoBones], whatever its outcome, looking a role up in
    the collected table with [findTargetKeys] gives the names of the bones
    that carry the role, in armature order; the empty role is never
    listed. *)
Theorem findTargetKeys_of_collected_table self w r self' w' :
  wf_bones (bones_of w) →
  addAutoBones (self, w) = (r, (self', w')) →
  (∀ mhx, mhx ≠ "" →
     findTargetKeys mhx (info_bones self')
     = pb_name <$> filter (λ pb, McpBone pb = mhx) (bones_of w')) ∧
  findTargetKeys "" (info_bones self') = [].
Proof.
  intros Hwf Hrun. rewrite addAutoBones_run in Hrun. simpl in Hrun.
  destruct (addParents _ w) as [r1 w1] eqn:Hpar.
  injection Hrun as -> <- ->. simpl.
  pose proof (addParents_skel _ _ _ _ Hwf Hpar) as Hs.
  rewrite <- (role_pairs_skel _ _ Hs). split.
  - intros mhx Hmhx. by apply findTargetKeys_role_pairs.
  - apply findTargetKeys_role_pairs_empty.
Qed.
End findTargetKeys_properties.

(** ** The scan of [initTargets] *)

Lemma for_app {St A} (l1 l2 : list A) (body : A → M St unit) s :
  for_ (l1 ++ l2) body s
  = match for_ l1 body s with
    | (Return _, s1) => for_ l2 body s1
    | other => other
    end.
Proof.
  revert s. induction l1 as [|x l1 IH]; intros s; [done|].
  cbn [app for_].
  destruct (body x s) as [[[]|e|] s1] eqn:Hx.
  - erewrite !bind_Return by exact Hx. apply IH.
  - by erewrite !bind_Raise by exact Hx.
  - by erewrite !bind_Diverge by exact Hx.
Qed.

Section scan_lemmas.
Context `{host : Host}.
Implicit Types (w : World).

(** One turn of the loop of [initTargets], exactly: an entry that is no
    mapping file is skipped, a mapping file with a table is stored, and any
    other mapping file raises with the registry as it was. *)
Lemma initTargets_turn fname w :
  let turn :=
    (let filepath := path_join target_rigs fname in
     let '(name, ext) := splitext fname in
     is_file ← isfile filepath;
     when (bool_decide (ext = ".json") && is_file) (
       info ← call_on_new (__init__ "Manual") (readFile filepath);
       registry_setitem (info_name info) info)) in
  if is_mapping_file (files w) fname then
    match table_of_file (files w) (path_join target_rigs fname) with
    | Some entry =>
        turn w
        = (Return tt,
           set_stdout (stdout w ++ [read_line (path_join target_rigs fname)])
             (set__targetInfo (setitem (_targetInfo w) entry.1 entry.2) w))
    | None =>
        ∃ e, turn w
             = (Raise e,
                set_stdout (stdout w ++ [read_line (path_join target_rigs fname)]) w)
    end
  else turn w = (Return tt, w).
Proof.
  simpl.
  assert (is_mapping_file (files w) fname
          = bool_decide ((splitext fname).2 = ".json") &&
            match files w !! path_join target_rigs fname with
            | Some (File _) => true
            | _ => false
            end) as Hmf by done.
  destruct (splitext fname) as [name ext]. simpl in Hmf.
  assert (∀ k : bool → M World unit,
            (isfile (path_join target_rigs fname) ≫= k) w
            = k match files w !! path_join target_rigs fname with
                | Some (File _) => true
                | _ => false
                end w) as -> by done.
  rewrite <- Hmf.
  destruct (is_mapping_file (files w) fname) eqn:Hcond; simpl; [|done].
  unfold table_of_file, call_on_new, readFile, Method, json_load,
    struct_getitem, items, registry_setitem.
  unfold mbind, M_bind, liftW, print, assign, modify, gets, raise, mret, M_ret.
  simpl.
  destruct (files w !! path_join target_rigs fname) as [[[struct|]|]|];
    simpl; try (by eexists).
  destruct (getitem struct "name") as [[k|dn]|]; simpl; try (by eexists).
  - destruct (getitem struct "bones") as [[s|d]|]; simpl; try (by eexists).
    assert (((λ '(key, value), (key, nameOrNone value)) <$> d)
            = ((λ kv : string * string, (kv.1, nameOrNone kv.2)) <$> d)) as Hmap.
    { apply list_fmap_ext. by intros ? [? ?] _. }
    destruct (getitem struct "parents"); simpl; unfold set_info_bones; simpl;
      by rewrite Hmap.
  - destruct (getitem struct "bones") as [[s|d]|]; simpl; try (by eexists).
    destruct (getitem struct "parents"); simpl; by eexists.
Qed.

(** The loop over entries whose mapping files all have a table. *)
Lemma initTargets_scan fnames tables w :
  Forall2 (λ path entry, table_of_file (files w) path = Some entry)
    (path_join target_rigs <$>
       filter (λ fname, is_mapping_file (files w) fname = true) fnames)
    tables →
  for_ fnames (λ fname,
    let filepath := path_join target_rigs fname in
    let '(name, ext) := splitext fname in
    is_file ← isfile filepath;
    when (bool_decide (ext = ".json") && is_file) (
      info ← call_on_new (__init__ "Manual") (readFile filepath);
      registry_setitem (info_name info) info)) w
  = (Return tt,
     set_stdout
       (stdout w ++
          (read_line <$>
             (path_join target_rigs <$>
                filter (λ fname, is_mapping_file (files w) fname = true) fnames)))
       (set__targetInfo (setitems (_targetInfo w) tables) w)).
Proof.
  revert tables w. induction fnames as [|fname fnames IH]; intros tables w Hall.
  { inversion Hall. simpl. by rewrite set_stdout_registry_id. }
  cbn [for_]. pose proof (initTargets_turn fname w) as Hturn. simpl in Hturn.
  rewrite filter_cons in Hall |- *.
  destruct (is_mapping_file (files w) fname) eqn:Hmf.
  - rewrite decide_True in Hall |- * by done. rewrite fmap_cons in Hall.
    apply Forall2_cons_inv_l in Hall as (entry & tables' & Hentry & Hall & ->).
    rewrite Hentry in Hturn.
    erewrite bind_Return by exact Hturn.
    rewrite (IH tables') by done. f_equal.
    unfold set_stdout, set__targetInfo. simpl. by rewrite <- app_assoc.
  - rewrite decide_False in Hall |- * by done.
    erewrite bind_Return by exact Hturn. by apply IH.
Qed.

(** The loop stops at the first mapping file without a table. *)
Lemma initTargets_scan_stops pre bad post tables w :
  Forall2 (λ path entry, table_of_file (files w) path = Some entry)
    (path_join target_rigs <$>
       filter (λ fname, is_mapping_file (files w) fname = true) pre)
    tables →
  is_mapping_file (files w) bad = true →
  table_of_file (files w) (path_join target_rigs bad) = None →
  ∃ e,
    for_ (pre ++ bad :: post) (λ fname,
      let filepath := path_join target_rigs fname in
      let '(name, ext) := splitext fname in
      is_file ← isfile filepath;
      when (bool_decide (ext = ".json") && is_file) (
        info ← call_on_new (__init__ "Manual") (readFile filepath);
        registry_setitem (info_name info) info)) w
    = (Raise e,
       set_stdout
         (stdout w ++
            (read_line <$>
               (path_join target_rigs <$>
                  filter (λ fname, is_mapping_file (files w) fname = true) pre))
            ++ [read_line (path_join target_rigs bad)])
         (set__targetInfo (setitems (_targetInfo w) tables) w)).
Proof.
  intros Hall Hmf Hbad. rewrite for_app, (initTargets_scan pre tables) by done.
  set (w1 := set_stdout _ _).
  pose proof (initTargets_turn bad w1) as Hturn. simpl in Hturn.
  change (files w1) with (files w) in Hturn. rewrite Hmf, Hbad in Hturn.
  destruct Hturn as [e Hturn]. exists e.
  cbn [for_]. erewrite bind_Raise by exact Hturn. f_equal.
  unfold w1, set_stdout, set__targetInfo. simpl. by rewrite <- app_assoc.
Qed.

(** [initTargets] when the directory can be listed and every mapping file
    has a table. *)
Lemma initTargets_exact entries tables w :
  files w !! target_rigs = Some (Dir entries) →
  Forall2 (λ path entry, table_of_file (files w) path = Some entry)
    (mapping_files (files w)) tables →
  initTargets w
  = (Return tt,
     let reg := setitems [("Automatic", __init__ "Automatic")] tables in
     set_stdout (stdout w ++ (read_line <$> mapping_files (files w))
                   ++ ["Defined McpTargetRig"])
       (set_McpTargetRig_items
          ((λ key, (key, key, key)) <$> merge_sort String.le reg.*1)
          (set__targetInfo reg w))).
Proof.
  intros Hdir Hall. unfold mapping_files in *. rewrite Hdir in *.
  unfold initTargets. erewrite bind_Return by done.
  unfold listdir. fold target_rigs.
  set (w0 := set__targetInfo _ w).
  erewrite bind_Return
    by (erewrite bind_Return by done; change (files w0) with (files w);
        by rewrite Hdir).
  erewrite bind_Return by (by apply (initTargets_scan entries tables w0)).
  erewrite bind_Return by done. erewrite bind_Return by done.
  unfold print, modify. f_equal.
  unfold w0, set_stdout, set__targetInfo, set_McpTargetRig_items.
  simpl. by rewrite <- app_assoc.
Qed.
End scan_lemmas.

(** ** The registry after [initTargets] *)

Section registry_properties.
Context `{host : Host}.
Implicit Types (w : World).

(** The entries of a directory either all have a table where they are
    mapping files, or there is a first mapping file that has none. *)
Lemma scan_cases (fs : gmap string fnode) (fnames : list string) :
  (∃ tables,
     Forall2 (λ path entry, table_of_file fs path = Some entry)
       (path_join target_rigs <$>
          filter (λ fname, is_mapping_file fs fname = true) fnames)
       tables) ∨
  (∃ pre bad post tables,
     fnames = pre ++ bad :: post ∧
     Forall2 (λ path entry, table_of_file fs path = Some entry)
       (path_join target_rigs <$>
          filter (λ fname, is_mapping_file fs fname = true) pre)
       tables ∧
     is_mapping_file fs bad = true ∧
     table_of_file fs (path_join target_rigs bad) = None).
Proof.
  induction fnames as [|fname fnames IH].
  { left. exists []. constructor. }
  destruct (is_mapping_file fs fname) eqn:Hmf.
  - destruct (table_of_file fs (path_join target_rigs fname)) as [entry|] eqn:Ht.
    + destruct IH as [[tables Hall]|(pre & bad & post & tables & -> & Hall & Hb & Hn)].
      * left. exists (entry :: tables).
        rewrite filter_cons_True, fmap_cons by done. by constructor.
      * right. exists (fname :: pre), bad, post, (entry :: tables).
        split; [done|]. split; [|done].
        rewrite filter_cons_True, fmap_cons by done. by constructor.
    + right. exists [], fname, fnames, []. split; [done|]. split; [|done].
      constructor.
  - destruct IH as [[tables Hall]|(pre & bad & post & tables & -> & Hall & Hb & Hn)].
    + left. exists tables. by rewrite filter_cons_False by (by rewrite Hmf).
    + right. exists (fname :: pre), bad, post, tables.
      split; [done|]. split; [|done].
      by rewrite filter_cons_False by (by rewrite Hmf).
Qed.

(** [initTargets] when the scan meets a mapping file without a table. *)
Lemma initTargets_stops pre bad post tables w :
  files w !! target_rigs = Some (Dir (pre ++ bad :: post)) →
  Forall2 (λ path entry, table_of_file (files w) path = Some entry)
    (path_join target_rigs <$>
       filter (λ fname, is_mapping_file (files w) fname = true) pre)
    tables →
  is_mapping_file (files w) bad = true →
  table_of_file (files w) (path_join target_rigs bad) = None →
  ∃ e,
    initTargets w
    = (Raise e,
       set_stdout
         (stdout w ++
            (read_line <$>
               (path_join target_rigs <$>
                  filter (λ fname, is_mapping_file (files w) fname = true) pre))
            ++ [read_line (path_join target_rigs bad)])
         (set__targetInfo
            (setitems [("Automatic", __init__ "Automatic")] tables) w)).
Proof.
  intros Hdir Hall Hmf Hbad.
  unfold initTargets. erewrite bind_Return by done.
  unfold listdir. fold target_rigs.
  set (w0 := set__targetInfo _ w).
  erewrite bind_Return
    by (erewrite bind_Return by done; change (files w0) with (files w);
        by rewrite Hdir).
  destruct (initTargets_scan_stops pre bad post tables w0 Hall Hmf Hbad)
    as [e Hrun].
  exists e. by erewrite bind_Raise by exact Hrun.
Qed.

(** [initTargets] when the directory cannot be listed. *)
Lemma initTargets_no_directory w :
  (∀ entries, files w !! target_rigs ≠ Some (Dir entries)) →
  initTargets w
  = (Raise (OSError target_rigs),
     set__targetInfo [("Automatic", __init__ "Automatic")] w).
Proof.
  intros Hdir. unfold initTargets. erewrite bind_Return by done.
  unfold listdir. fold target_rigs.
  set (w0 := set__targetInfo _ w).
  erewrite bind_Raise; [done|].
  erewrite bind_Return by done. change (files w0) with (files w).
  destruct (files w !! target_rigs) as [[c|entries]|] eqn:Hd; try done.
  by destruct (Hdir entries).
Qed.

(** Whatever its outcome, [initTargets] leaves a registry that starts from
    the synthetic entry; it never diverges. *)
Lemma initTargets_cases w :
  ∃ r w' tables,
    initTargets w = (r, w') ∧ r ≠ Diverge ∧
    _targetInfo w' = setitems [("Automatic", __init__ "Automatic")] tables ∧
    (r = Return tt →
     McpTargetRig_items w'
     = (λ key, (key, key, key)) <$> merge_sort String.le (_targetInfo w').*1) ∧
    (r ≠ Return tt → McpTargetRig_items w' = McpTargetRig_items w).
Proof.
  destruct (files w !! target_rigs) as [[c|entries]|] eqn:Hdir.
  2:{ destruct (scan_cases (files w) entries)
        as [[tables Hall]|(pre & bad & post & tables & -> & Hall & Hb & Hn)].
      - eexists _, _, tables. split.
        { apply (initTargets_exact entries); [done|].
          unfold mapping_files. by rewrite Hdir. }
        by split_and!.
      - destruct (initTargets_stops pre bad post tables w Hdir Hall Hb Hn)
          as [e Hrun].
        eexists _, _, tables. split; [exact Hrun|]. by split_and!. }
  all: eexists _, _, []; split;
    [apply initTargets_no_directory; intros entries; by rewrite Hdir|];
    by split_and!.
Qed.


(** X11.  When [initTargets] returns, the items it defines for the scene
    setting are the keys of the registry, each once, in sorted order, with
    ["Automatic"] among them. *)
Theorem initTargets_items_sorted w w' :
  initTargets w = (Return tt, w') →
  ∃ keys,
    McpTargetRig_items w' = (λ key, (key, key, key)) <$> keys ∧
    Sorted String.le keys ∧ NoDup keys ∧
    (∀ key, key ∈ keys ↔ is_Some (getitem (_targetInfo w') key)) ∧
    "Automatic" ∈ keys.
Proof.
  intros Hrun.
  destruct (initTargets_cases w) as (r & w1 & tables & Hrun1 & _ & Hreg & Hit & _).
  rewrite Hrun in Hrun1. injection Hrun1 as <- <-.
  exists (merge_sort String.le (_targetInfo w').*1).
  assert (NoDup (_targetInfo w').*1) as Hnd.
  { rewrite Hreg. apply setitems_NoDup. simpl. apply NoDup_singleton. }
  assert (∀ key, key ∈ (_targetInfo w').*1 ↔ is_Some (getitem (_targetInfo w') key))
    as Hkeys.
  { intros key. generalize (_targetInfo w'). intros reg.
    induction reg as [|[k v] reg IH]; simpl.
    - split; [by intros ?%elem_of_nil|by intros [? ?]].
    - rewrite elem_of_cons, IH. destruct (String.eqb_spec k key) as [->|Hne].
      + split; [by eexists|by left].
      + split; [by intros [?|?]|by right]. }
  split_and!.
  - by apply Hit.
  - apply Sorted_merge_sort. apply _.
  - by rewrite merge_sort_Permutation.
  - intros key. by rewrite merge_sort_Permutation.
  - rewrite merge_sort_Permutation, Hreg, setitems_keys. left. simpl. by left.
Qed.


(** X13.  A scan that failed is not tried again: whatever the outcome of
    [initTargets] (it never diverges), the registry it leaves holds the
    ["Automatic"] entry, so that [ensureTargetInited] does nothing
    afterwards; when the directory of mapping files cannot be listed, the
    outcome is [OSError] and the synthetic entry is all the registry
    holds. *)
Theorem initTargets_failure_is_not_retried w :
  (∃ r w', initTargets w = (r, w') ∧ r ≠ Diverge ∧
     is_Some (getitem (_targetInfo w') "Automatic") ∧
     ensureTargetInited w' = (Return tt, w') ∧
     (r ≠ Return tt → McpTargetRig_items w' = McpTargetRig_items w)) ∧
  ((∀ entries, files w !! target_rigs ≠ Some (Dir entries)) →
   initTargets w
   = (Raise (OSError target_rigs),
      set__targetInfo [("Automatic", __init__ "Automatic")] w)).
Proof.
  split; [|apply initTargets_no_directory].
  destruct (initTargets_cases w) as (r & w' & tables & Hrun & Hdiv & Hreg & _ & Hit).
  exists r, w'. split_and!; try done.
  - rewrite Hreg, getitem_setitems. by destruct (override_of tables "Automatic").
  - apply ensureTargetInited_inited. rewrite Hreg. intros Hnil.
    assert ("Automatic" ∈ (setitems [("Automatic", __init__ "Automatic")] tables).*1)
      as Hin by (apply setitems_keys; left; simpl; by left).
    rewrite Hnil in Hin. by apply elem_of_nil in Hin.
Qed.

(** X14.  [loadTargets] empties the registry, so that the next
    [ensureTargetInited] scans the directory again; the scan does not
    depend on what the registry held. *)
Theorem loadTargets_forces_rescan w :
  (loadTargets;; isTargetInited) w = (Return false, set__targetInfo [] w) ∧
  (loadTargets;; ensureTargetInited) w = initTargets w ∧
  (∀ reg, initTargets (set__targetInfo reg w) = initTargets w).
Proof.
  assert (∀ reg, initTargets (set__targetInfo reg w) = initTargets w) as Hreg.
  { intros reg. unfold initTargets. by erewrite !bind_Return by done. }
  split_and!; [| |done].
  - unfold loadTargets. erewrite bind_Return by done.
    unfold isTargetInited. by erewrite bind_Return by done.
  - unfold loadTargets. erewrite bind_Return by done.
    rewrite ensureTargetInited_empty by done. apply Hreg.
Qed.
End registry_properties.

(** ** Paths *)





(** ** [saveTargetFile] *)


Section saveTargetFile_properties.
Context `{host : Host}.
Implicit Types (w : World).

End saveTargetFile_properties.

(** ** [getTargetArmature] *)

Section getTargetArmature_properties.
Context `{host : Host}.
Implicit Types (w : World).

(** With a registry in place, guessing prints its heading and runs the
    checks. *)
Lemma guessTargetArmatureFromList_inited w :
  _targetInfo w ≠ [] →
  guessTargetArmatureFromList w
  = (Return (first_matching_kind (object w)),
     set_stdout (stdout w ++ ["Guessing target"]) w).
Proof.
  intros Hreg. unfold guessTargetArmatureFromList.
  erewrite bind_Return by (by apply ensureTargetInited_inited).
  erewrite bind_Return by done. erewrite bind_Return by done.
  change (object (set_stdout _ w)) with (object w).
  unfold first_matching_kind, rig_kind_checks. simpl.
  destruct (isMhxRig (object w)); [done|].
  destruct (isMakeHuman (object w)); [done|].
  destruct (isRigify2 (object w)); [done|].
  destruct (isRigify (object w)); [done|].
  destruct (isMhx7Rig (object w)); [done|].
  destruct (isGenesis12 (object w)); [done|].
  by destruct (isGenesis38 (object w)).
Qed.

(** X16.  The automatic path: with ["Automatic"] selected and no known
    rig kind recognised, [getTargetArmature] lets the host assign the
    roles, and returns a fresh table named ["Automatic"] that lists the
    role-bearing bones in armature order and has no overrides.  The
    registry holds that table under ["Automatic"] and its other entries as
    before, the T-pose file of the armature is cleared, and every
    role-bearing bone has its parent-role resolved. *)
Theorem getTargetArmature_automatic amt rig' w :
  _targetInfo w ≠ [] → McpTargetRig (scene w) = "Automatic" →
  first_matching_kind (object w) = "Automatic" →
  findArmature (object w) (McpIgnoreHiddenLayers (scene w)) = (Return amt, rig') →
  wf_bones (pose_bones rig') →
  ∃ info w', getTargetArmature w = (Return info, w') ∧
    info = mkCTargetInfo (JStr "Automatic") "None"
             (role_pairs (pose_bones rig')) (JDict []) ∧
    getitem (_targetInfo w') "Automatic" = Some info ∧
    (∀ k, k ≠ "Automatic" →
       getitem (_targetInfo w') k = getitem (_targetInfo w) k) ∧
    McpTPoseFile (object w') = "" ∧ rig_name (object w') = rig_name rig' ∧
    scene w' = scene w ∧ files w' = files w ∧
    skel <$> bones_of w' = skel <$> pose_bones rig' ∧
    (∀ i pb, bones_of w' !! i = Some pb → McpBone pb ≠ "" →
       parent_role_resolved (bones_of w') [] pb) ∧
    utils w' = clearCategory (setCategory "Automatic Target Rig"
                 (setCategory "Identify Target Rig" (utils w))).
Proof.
  intros Hreg Hsel Hkind Hfind Hwf.
  unfold getTargetArmature.
  erewrite bind_Return by done.
  erewrite bind_Return by (by apply ensureTargetInited_inited).
  erewrite bind_Return by done.
  change (McpTargetRig (scene (set_utils _ w))) with (McpTargetRig (scene w)).
  rewrite Hsel. rewrite bool_decide_eq_true_2 by done.
  erewrite bind_Return by (by apply guessTargetArmatureFromList_inited).
  change (object (set_utils _ w)) with (object w). rewrite Hkind.
  rewrite bool_decide_eq_true_2 by done.
  erewrite bind_Return by done.
  erewrite bind_Return by (simpl; by rewrite Hfind).
  erewrite bind_Return by done.
  erewrite bind_Return by (apply (for_print id)).
  erewrite bind_Return by done.
  set (w0 := set__targetInfo _ _).
  set (self' := set_info_bones (role_pairs (pose_bones rig'))
                  (__init__ "Automatic")).
  assert (bones_of w0 = pose_bones rig') as Hbs by done.
  destruct (addParents_resolved self' [] w0) as (w1 & Hrun & Hs & Hreg1 & _ & Hres);
    [by rewrite Hbs|done|constructor|].
  destruct (addParents_frame self' w0 (Return tt) w1) as (bs1 & out & Hw1 & _);
    [by rewrite Hbs|done|].
  assert (call_on_entry "Automatic" addAutoBones w0
          = (Return tt,
             set__targetInfo (setitem (_targetInfo w1) "Automatic" self') w1))
    as Hcall.
  { unfold call_on_entry.
    assert (getitem (_targetInfo w0) "Automatic" = Some (__init__ "Automatic"))
      as -> by (unfold w0; simpl; by rewrite getitem_setitem).
    rewrite addAutoBones_run. simpl. rewrite Hbs. fold self'. by rewrite Hrun. }
  erewrite bind_Return by exact Hcall.
  erewrite bind_Return by done. erewrite bind_Return by done.
  unfold getTargetInfo. erewrite bind_Return by done. simpl.
  rewrite getitem_setitem. simpl.
  eexists _, _. split; [done|].
  rewrite Hbs in Hs.
  split_and!; try done.
  - simpl. by rewrite getitem_setitem.
  - intros k Hk. simpl. rewrite getitem_setitem.
    destruct (String.eqb_spec "Automatic" k) as [<-|_]; [done|].
    rewrite Hreg1. unfold w0. simpl. rewrite getitem_setitem.
    by destruct (String.eqb_spec "Automatic" k) as [<-|_].
  - simpl. by rewrite Hw1.
  - simpl. rewrite Hw1. simpl. destruct (scene w). simpl in *. by rewrite Hsel.
  - simpl. by rewrite Hw1.
  - simpl. by rewrite Hw1.
Qed.

(** X17.  When the host's search for roles raises on the automatic path,
    [getTargetArmature] raises the same exception: the registry and the
    scene are as before, and the error category stays at the automatic
    path. *)
Theorem getTargetArmature_findArmature_raises e rig' w :
  _targetInfo w ≠ [] → McpTargetRig (scene w) = "Automatic" →
  first_matching_kind (object w) = "Automatic" →
  findArmature (object w) (McpIgnoreHiddenLayers (scene w)) = (Raise e, rig') →
  getTargetArmature w
  = (Raise e,
     set_object rig'
       (set_stdout (stdout w ++ ["Guessing target"])
          (set_utils (setCategory "Automatic Target Rig"
                        (setCategory "Identify Target Rig" (utils w))) w))).
Proof.
  intros Hreg Hsel Hkind Hfind.
  unfold getTargetArmature.
  erewrite bind_Return by done.
  erewrite bind_Return by (by apply ensureTargetInited_inited).
  erewrite bind_Return by done.
  change (McpTargetRig (scene (set_utils _ w))) with (McpTargetRig (scene w)).
  rewrite Hsel. rewrite bool_decide_eq_true_2 by done.
  erewrite bind_Return by (by apply guessTargetArmatureFromList_inited).
  change (object (set_utils _ w)) with (object w). rewrite Hkind.
  rewrite bool_decide_eq_true_2 by done.
  erewrite bind_Return by done.
  erewrite bind_Raise; [done|]. simpl. by rewrite Hfind.
Qed.

(** X18.  The manual path with a selected name the registry does not
    hold: [getTargetArmature] raises [KeyError] for the name before it
    tests or touches the armature; nothing is printed and the error
    category is not cleared. *)
Theorem getTargetArmature_unknown_name name w :
  _targetInfo w ≠ [] → McpTargetRig (scene w) = name → name ≠ "Automatic" →
  getitem (_targetInfo w) name = None →
  getTargetArmature w
  = (Raise (KeyError name),
     set_utils (setCategory "Manual Target Rig"
                  (setCategory "Identify Target Rig" (utils w))) w).
Proof.
  intros Hreg Hsel Hname Hnone.
  unfold getTargetArmature.
  erewrite bind_Return by done.
  erewrite bind_Return by (by apply ensureTargetInited_inited).
  erewrite bind_Return by done.
  change (McpTargetRig (scene (set_utils _ w))) with (McpTargetRig (scene w)).
  rewrite Hsel, (bool_decide_eq_false_2 _ Hname).
  erewrite bind_Return by done. rewrite (bool_decide_eq_false_2 _ Hname).
  erewrite bind_Return by done. erewrite bind_Return by done.
  erewrite bind_Raise.
  2:{ unfold getTargetInfo. erewrite bind_Return by done. simpl.
      by rewrite Hnone. }
  f_equal. destruct w as [o [sel ih st] reg fs its out u]. simpl in *.
  by subst.
Qed.
(** X19.  Called with an empty registry, [getTargetArmature] scans the
    directory of mapping files first, and a scan that raises makes it
    raise the same exception before it looks at the armature. *)
Theorem getTargetArmature_scan_failure e w1 w :
  _targetInfo w = [] →
  initTargets (set_utils (setCategory "Identify Target Rig" (utils w)) w)
  = (Raise e, w1) →
  getTargetArmature w = (Raise e, w1) ∧ object w1 = object w.
Proof.
  intros Hreg Hscan. split.
  - unfold getTargetArmature. erewrite bind_Return by done.
    erewrite bind_Raise; [done|].
    by rewrite ensureTargetInited_empty.
  - destruct (initTargets_run
                (set_utils (setCategory "Identify Target Rig" (utils w)) w))
      as (r & w' & Hrun & Hobj & _).
    rewrite Hscan in Hrun. by injection Hrun as <- <-.
Qed.
End getTargetArmature_properties.

(** ** Tables that fail late, and guessed rig kinds *)

Section late_properties.
Context `{host : Host}.
Implicit Types (w : World).

(** X20.  [readFile] does not look at the ["parents"] member it stores: a
    mapping file whose ["parents"] is a string is read without complaint,
    and the table fails only when it is applied, where [addManualBones]
    raises [AttributeError] after it assigned the roles. *)
Theorem string_parents_fail_on_use filepath struct name bones s self w :
  files w !! filepath = Some (File (Some struct)) →
  getitem struct "name" = Some name →
  getitem struct "bones" = Some (JDict bones) →
  getitem struct "parents" = Some (JStr s) →
  wf_bones (bones_of w) →
  ∃ info w1,
    call_on_new self (readFile filepath) w = (Return info, w1) ∧
    info_parents info = JStr s ∧ bones_of w1 = bones_of w ∧
    ∃ msg w2,
      addManualBones info w1 = (Raise (AttributeError msg), w2) ∧
      ∀ i pb, bones_of w !! i = Some pb →
        ∃ pb', bones_of w2 !! i = Some pb' ∧ pb_name pb' = pb_name pb ∧
          McpBone pb' = default "" (override_of (info_bones info) (pb_name pb)).
Proof.
  intros Hfile Hname Hbones Hpar Hwf.
  set (info := mkCTargetInfo name filepath
                 ((λ '(key, value), (key, nameOrNone value)) <$> bones) (JStr s)).
  set (w1 := set_stdout (stdout w ++ ["Read target file " +:+ filepath]) w).
  exists info, w1. split.
  { unfold call_on_new, readFile, Method, json_load, struct_getitem, items.
    unfold mbind, M_bind, liftW, print, assign, modify, gets, raise, mret, M_ret.
    simpl. rewrite Hfile. simpl. rewrite Hname, Hbones. simpl.
    by rewrite Hpar. }
  split; [done|]. split; [done|].
  destruct (addManualBones_run info w1) as [out Hout].
  set (wm := set_stdout _ _) in Hout.
  assert (wf_bones (bones_of wm)) as Hwfm by (by apply addManualBones_wf).
  destruct (addParents_AttributeError info s wm Hwfm eq_refl)
    as (msg & w2 & Hrun & Hs).
  exists msg, w2. split; [by rewrite Hout|].
  intros i pb Hi.
  destruct (addManualBones_roles (info_bones info) (bones_of w) i pb
              (proj1 Hwf) Hi) as (pbm & Him & Hnm & Hrm).
  pose proof (skel_lookup _ _ i Hs) as Hsi.
  unfold wm in Hsi.
  change (bones_of (set_stdout _ (set_bones ?bs _))) with bs in Hsi.
  change (bones_of w1) with (bones_of w) in Hsi. rewrite Him in Hsi.
  destruct (bones_of w2 !! i) as [pb'|]; [|done].
  injection Hsi as Hn _ Hr. exists pb'. simpl in *.
  split_and!; [done|congruence|congruence].
Qed.

(** X21.  With ["Automatic"] selected and a rig kind recognised whose
    name is an item of the scene setting and a key of the registry,
    [getTargetArmature] takes the manual path with that table: it selects
    the name in the scene, returns the table, gives every bone the role the
    table has for it, and resolves the parent-roles; the registry is as
    before. *)
Theorem getTargetArmature_guessed_kind name info d w :
  _targetInfo w ≠ [] → McpTargetRig (scene w) = "Automatic" →
  first_matching_kind (object w) = name → name ≠ "Automatic" →
  (name, name, name) ∈ McpTargetRig_items w →
  getitem (_targetInfo w) name = Some info →
  wf_bones (bones_of w) → info_parents info = JDict d →
  (∀ k, k ∈ d.*1 → is_Some (bone_index (bones_of w) k)) →
  ∃ w', getTargetArmature w = (Return info, w') ∧
    McpTargetRig (scene w') = name ∧ _targetInfo w' = _targetInfo w ∧
    (∀ i pb, bones_of w !! i = Some pb →
       ∃ pb', bones_of w' !! i = Some pb' ∧ pb_name pb' = pb_name pb ∧
              McpBone pb' = default "" (override_of (info_bones info) (pb_name pb))) ∧
    (∀ i pb, bones_of w' !! i = Some pb → McpBone pb ≠ "" →
       parent_role_resolved (bones_of w') d pb).
Proof.
  intros Hreg Hsel Hkind Hname _ Hinfo Hwf Hp Hd.
  unfold getTargetArmature.
  erewrite bind_Return by done.
  erewrite bind_Return by (by apply ensureTargetInited_inited).
  erewrite bind_Return by done.
  change (McpTargetRig (scene (set_utils _ w))) with (McpTargetRig (scene w)).
  rewrite Hsel. rewrite bool_decide_eq_true_2 by done.
  erewrite bind_Return by (by apply guessTargetArmatureFromList_inited).
  change (object (set_utils _ w)) with (object w). rewrite Hkind.
  rewrite (bool_decide_eq_false_2 _ Hname).
  erewrite bind_Return by done. erewrite bind_Return by done.
  erewrite bind_Return.
  2:{ unfold getTargetInfo. erewrite bind_Return by done. simpl.
      by rewrite Hinfo. }
  set (w3 := set_scene _ _).
  destruct (testRig_run info name w3) as (out1 & Hrun1 & _).
  erewrite bind_Return by exact Hrun1.
  erewrite bind_Return by done.
  set (w5 := set_stdout _ (set_stdout _ w3)).
  destruct (addManualBones_run info w5) as [out2 Hman].
  set (w6 := set_stdout _ _) in Hman.
  assert (wf_bones (bones_of w6)) as Hwf6
    by by apply (addManualBones_wf (info_bones info)).
  assert (pb_name <$> bones_of w6 = pb_name <$> bones_of w) as Hnames.
  { unfold w6. change (bones_of (set_stdout _ (set_bones ?bs _))) with bs.
    rewrite assign_all_proj by done. rewrite <- list_fmap_compose.
    by apply list_fmap_ext. }
  destruct (addParents_resolved info d w6 Hwf6 Hp)
    as (w7 & Hpar & Hs7 & Hreg7 & _ & Hres).
  { apply present_Forall. intros k Hk.
    rewrite (bone_index_same_names _ (bones_of w)) by done. by apply Hd. }
  destruct (addParents_frame info w6 (Return tt) w7 Hwf6 Hpar)
    as (bs7 & out7 & Hw7 & _).
  erewrite bind_Return by (rewrite Hman; exact Hpar).
  erewrite bind_Return by done.
  eexists. split; [done|]. split_and!.
  - simpl. by rewrite Hw7.
  - simpl. by rewrite Hreg7.
  - intros i pb Hi.
    destruct (addManualBones_roles (info_bones info) (bones_of w) i pb
                (proj1 Hwf) Hi) as (pb6 & Hi6 & Hn6 & Hr6).
    pose proof (skel_lookup _ _ i Hs7) as Hsi.
    change (bones_of w6) with (assign_all set_McpBone (info_bones info)
                                 (set_McpBone "" <$> bones_of w)) in Hsi.
    rewrite Hi6 in Hsi.
    change (bones_of (set_utils _ w7)) with (bones_of w7).
    destruct (bones_of w7 !! i) as [pb'|]; [|done].
    injection Hsi as Hn _ Hr. exists pb'.
    split_and!; [done|congruence|congruence].
  - exact Hres.
Qed.
End late_properties.

(** ** The claims on the example armature *)

#[local] Existing Instance example_host.

Lemma chain3_wf : wf_bones (pose_bones chain3).
Proof. apply (bool_decide_unpack _). vm_compute. exact I. Defined.

(** C2 on the example chain: the leaf ["Spine"] gets the root ["Hips"]. *)
Lemma addParents_nearest_role_ancestor_witness :
  ∃ w' leaf',
    addParents (__init__ "Automatic") chain3_world = (Return tt, w') ∧
    bones_of w' !! 2 = Some leaf' ∧ McpParent leaf' = "Hips".
Proof.
  apply (proj2 (@addParents_nearest_role_ancestor example_host)
           (__init__ "Automatic") chain3_world
           (mkPoseBone "Hips" None "hips" "")
           (mkPoseBone "Twist" (Some 0) "" "")
           (mkPoseBone "Spine" (Some 1) "spine" "stale"));
    try reflexivity.
  - apply (bool_decide_unpack _). vm_compute. exact I.
  - discriminate.
  - discriminate.
Defined.

(** C3 on the example chain: the override gives ["Spine"] the parent-role
    ["Twist"] although the walk finds ["Hips"]. *)
Lemma addParents_override_precedence_witness :
  ∃ w', addParents override_table chain3_world = (Return tt, w') ∧
    (∀ bname pname, override_of [("Spine", "Twist")] bname = Some pname →
       ∃ i pb', bone_index (bones_of w') bname = Some i ∧
                bones_of w' !! i = Some pb' ∧ McpParent pb' = pname) ∧
    (NoDup [("Spine", "Twist")].*1 →
     ∀ bname pname, (bname, pname) ∈ [("Spine", "Twist")] →
       ∃ i pb', bone_index (bones_of w') bname = Some i ∧
                bones_of w' !! i = Some pb' ∧ McpParent pb' = pname).
Proof.
  apply (@addParents_override_precedence example_host override_table
           [("Spine", "Twist")] chain3_world chain3_wf eq_refl).
  intros k Hk. apply list_elem_of_singleton in Hk. subst k. by exists 2.
Defined.

(** C5 on the example chain, for both mapping operations. *)
Lemma mapping_operations_resolve_parents_witness :
  ((∃ w', addManualBones override_table chain3_world = (Return tt, w')) ∧
   (∃ self' w', addAutoBones (override_table, chain3_world)
                = (Return tt, (self', w')))) ∧
  (∃ d, info_parents override_table = JDict d ∧
     ∀ i pb, bones_of (addManualBones override_table chain3_world).2 !! i = Some pb →
       McpBone pb ≠ "" →
       parent_role_resolved
         (bones_of (addManualBones override_table chain3_world).2) d pb) ∧
  (info_bones (addAutoBones (__init__ "Automatic", chain3_world)).2.1
   = role_pairs (bones_of chain3_world) ∧
   ∃ d, info_parents (addAutoBones (__init__ "Automatic", chain3_world)).2.1
        = JDict d ∧
     ∀ i pb,
       bones_of (addAutoBones (__init__ "Automatic", chain3_world)).2.2 !! i
       = Some pb →
       McpBone pb ≠ "" →
       parent_role_resolved
         (bones_of (addAutoBones (__init__ "Automatic", chain3_world)).2.2) d pb).
Proof.
  split; [|split].
  - apply (proj1 (@mapping_operations_resolve_parents example_host)
             override_table [("Spine", "Twist")] chain3_world chain3_wf eq_refl).
    intros k Hk. apply list_elem_of_singleton in Hk. subst k. by exists 2.
  - apply (proj1 (proj2 (@mapping_operations_resolve_parents example_host))
             override_table chain3_world _ chain3_wf).
    vm_compute. reflexivity.
  - apply (proj2 (proj2 (@mapping_operations_resolve_parents example_host))
             (__init__ "Automatic") chain3_world _ _ chain3_wf).
    vm_compute. reflexivity.
Defined.

(** C8 on the example chain and a table that names a missing bone: the
    role of the root ["Hips"]. *)
Lemma addManualBones_roles_from_table_witness :
  ∃ pb', bones_of (addManualBones partial_table chain3_world).2 !! 0 = Some pb' ∧
    pb_name pb' = "Hips" ∧
    McpBone pb' = default "" (override_of (info_bones partial_table) "Hips") ∧
    ("Hips" ∉ (info_bones partial_table).*1 → McpBone pb' = "") ∧
    (NoDup (info_bones partial_table).*1 →
     ∀ role, role ≠ "" →
       McpBone pb' = role ↔ ("Hips", role) ∈ info_bones partial_table).
Proof.
  refine (@addManualBones_roles_from_table example_host partial_table chain3_world
            (addManualBones partial_table chain3_world).1
            (addManualBones partial_table chain3_world).2 chain3_wf _
            0 (mkPoseBone "Hips" None "hips" "") eq_refl).
  by destruct (addManualBones partial_table chain3_world).
Defined.

(** C9 on the example chain: an override for the missing ["Tail"] raises,
    an override for ["Spine"] does not. *)
Lemma addParents_KeyError_iff_missing_witness :
  (∃ k w', addParents mismatch_table chain3_world = (Raise (KeyError k), w') ∧
           k ∈ [("Tail", "Hips")].*1 ∧ bone_index (bones_of chain3_world) k = None) ∧
  (∃ w', addParents override_table chain3_world = (Return tt, w')).
Proof.
  split.
  - apply (proj1 (@addParents_KeyError_iff_missing example_host mismatch_table
                    [("Tail", "Hips")] chain3_world chain3_wf eq_refl)).
    exists "Tail". split; [by left|reflexivity].
  - apply (proj2 (@addParents_KeyError_iff_missing example_host override_table
                    [("Spine", "Twist")] chain3_world chain3_wf eq_refl)).
    intros k Hk. apply list_elem_of_singleton in Hk. subst k. by exists 2.
Defined.

(** C4 on the example chain, which no check recognises. *)
Lemma guessTargetArmatureFromList_first_match_witness :
  guessTargetArmatureFromList (custom_world partial_table)
  = (Return "Automatic",
     set_stdout ["Guessing target"] (custom_world partial_table)).
Proof.
  apply (proj1 (proj2 (@guessTargetArmatureFromList_first_match example_host
                         (custom_world partial_table)))).
  discriminate.
Defined.

(** C7 on a directory of two mapping files, a text file and a
    subdirectory: [initTargets] returns and the registry is the synthetic
    entry followed by the two tables. *)
Lemma initTargets_registry_witness :
  (∃ w', initTargets (example_world chain3 "Automatic" [] two_rigs)
         = (Return tt, w')) ∧
  ∃ loaded,
    Forall2 (loaded_from two_rigs) (mapping_files two_rigs) loaded ∧
    NoDup (_targetInfo (initTargets (example_world chain3 "Automatic" [] two_rigs)).2).*1 ∧
    (∀ k, k ∈ (_targetInfo (initTargets (example_world chain3 "Automatic" [] two_rigs)).2).*1
          ↔ k = "Automatic" ∨ k ∈ loaded.*1) ∧
    (∀ k, getitem (_targetInfo (initTargets (example_world chain3 "Automatic" [] two_rigs)).2) k
          = match override_of loaded k with
            | Some info => Some info
            | None => if String.eqb "Automatic" k
                      then Some (__init__ "Automatic") else None
            end) ∧
    (NoDup ("Automatic" :: loaded.*1) →
     _targetInfo (initTargets (example_world chain3 "Automatic" [] two_rigs)).2
     = ("Automatic", __init__ "Automatic") :: loaded ∧
     one_entry_per_file two_rigs
       (_targetInfo (initTargets (example_world chain3 "Automatic" [] two_rigs)).2)).
Proof.
  split.
  - apply (proj1 (@initTargets_registry example_host
                    (example_world chain3 "Automatic" [] two_rigs))).
    + eexists. vm_compute. reflexivity.
    + change (files (example_world _ _ _ ?fs)) with fs.
      assert (mapping_files two_rigs
              = ["/addons/retarget_bvh/target_rigs/mhx.json";
                 "/addons/retarget_bvh/target_rigs/rigify.json"]) as ->
        by (vm_compute; reflexivity).
      repeat constructor; eexists _, _, _; split_and!; reflexivity.
  - apply (proj2 (@initTargets_registry example_host
                    (example_world chain3 "Automatic" [] two_rigs))).
    vm_compute. reflexivity.
Defined.

(** C7, counterexample.  When two mapping files store the same name the
    later table replaces the earlier one: the registry has two entries for
    the synthetic entry and two files. *)
Lemma initTargets_same_name_counterexample :
  (initTargets (example_world chain3 "Automatic" [] same_name_rigs)).1 = Return tt ∧
  ¬ one_entry_per_file same_name_rigs
      (_targetInfo (initTargets (example_world chain3 "Automatic" [] same_name_rigs)).2).
Proof.
  split; [vm_compute; reflexivity|].
  intros (loaded & Hperm & Hall).
  apply Permutation_length in Hperm. apply Forall2_length in Hall.
  vm_compute in Hperm. vm_compute in Hall. congruence.
Qed.

(** C10 on a world whose registry is not empty. *)
Lemma ensureTargetInited_idempotent_witness :
  ensureTargetInited (custom_world partial_table)
  = (Return tt, custom_world partial_table).
Proof.
  apply (proj1 (@ensureTargetInited_idempotent example_host)). discriminate.
Defined.

(** C6.  The manual path of [getTargetArmature] with a table that lists
    bones the armature lacks does not raise as long as the override table
    names none of them: it prints the warning, returns the table and leaves
    every bone with the table's role for it.  With an override for a
    missing bone ([mismatch_table] on the example chain) the warning is
    printed and the roles are assigned, and then [addParents] raises
    [KeyError]. *)
Theorem getTargetArmature_partial_mismatch :
  (∀ (host : Host) name info d (w : @World host),
     _targetInfo w ≠ [] → McpTargetRig (scene w) = name → name ≠ "Automatic" →
     getitem (_targetInfo w) name = Some info →
     wf_bones (bones_of w) → info_parents info = JDict d →
     (∀ k, k ∈ d.*1 → is_Some (bone_index (bones_of w) k)) →
     ∃ w', getTargetArmature w = (Return info, w') ∧
       (∀ i pb, bones_of w !! i = Some pb →
          ∃ pb', bones_of w' !! i = Some pb' ∧ pb_name pb' = pb_name pb ∧
                 McpBone pb'
                 = default "" (override_of (info_bones info) (pb_name pb))) ∧
       (Exists (λ kv, bone_index (bones_of w) kv.1 = None) (info_bones info) →
        mismatch_warning (rig_name (object w)) name ∈ stdout w')) ∧
  (getTargetArmature (custom_world partial_table)).1 = Return partial_table ∧
  mismatch_warning "Armature" "Custom"
    ∈ stdout (getTargetArmature (custom_world mismatch_table)).2 ∧
  (McpBone <$> bones_of (getTargetArmature (custom_world mismatch_table)).2)
  = ["hips"; ""; ""] ∧
  (getTargetArmature (custom_world mismatch_table)).1 = Raise (KeyError "Tail").
Proof.
  split_and!.
  - intros host name info d w. apply getTargetArmature_manual.
  - vm_compute. reflexivity.
  - apply (bool_decide_unpack _). vm_compute. exact I.
  - vm_compute. reflexivity.
  - vm_compute. reflexivity.
Qed.

(** ** The further properties on the examples *)

(** X3 on the example chain and the table with an override. *)
Lemma addParents_changes_parent_roles_only_witness :
  skel <$> bones_of (addParents override_table chain3_world).2
  = skel <$> bones_of chain3_world ∧
  length (bones_of (addParents override_table chain3_world).2)
  = length (bones_of chain3_world) ∧
  wf_bones (bones_of (addParents override_table chain3_world).2) ∧
  rig_name (object (addParents override_table chain3_world).2)
  = rig_name (object chain3_world) ∧
  McpTPoseFile (object (addParents override_table chain3_world).2)
  = McpTPoseFile (object chain3_world) ∧
  _targetInfo (addParents override_table chain3_world).2
  = _targetInfo chain3_world ∧
  scene (addParents override_table chain3_world).2 = scene chain3_world ∧
  files (addParents override_table chain3_world).2 = files chain3_world.
Proof.
  refine (@addParents_changes_parent_roles_only example_host override_table
            chain3_world (addParents override_table chain3_world).1
            (addParents override_table chain3_world).2 chain3_wf _).
  by destruct (addParents override_table chain3_world).
Defined.

(** X4 on the example chain: the role-less ["Twist"] is left alone. *)
Lemma addParents_keeps_roleless_bones_witness :
  ∃ w', addParents (__init__ "Automatic") chain3_world = (Return tt, w') ∧
    ∀ i pb, bones_of chain3_world !! i = Some pb → McpBone pb = "" →
      pb_name pb ∉ ([] : list (string * string)).*1 →
      bones_of w' !! i = Some pb.
Proof.
  apply (@addParents_keeps_roleless_bones example_host (__init__ "Automatic") []
           chain3_world chain3_wf eq_refl).
  intros k Hk. by apply elem_of_nil in Hk.
Defined.

(** X5 on the example chain and the table with an override. *)
Lemma addParents_idempotent_witness :
  ∃ w2, addParents override_table (addParents override_table chain3_world).2
        = (Return tt, w2) ∧
    bones_of w2 = bones_of (addParents override_table chain3_world).2.
Proof.
  apply (@addParents_idempotent example_host override_table chain3_world
           (addParents override_table chain3_world).2 chain3_wf).
  vm_compute. reflexivity.
Defined.

(** X6 on the example chain. *)
Lemma addAutoBones_then_addManualBones_witness :
  ∃ w2,
    addManualBones (addAutoBones (__init__ "Automatic", chain3_world)).2.1
      (addAutoBones (__init__ "Automatic", chain3_world)).2.2
    = (Return tt, w2) ∧
    bones_of w2 = bones_of (addAutoBones (__init__ "Automatic", chain3_world)).2.2.
Proof.
  apply (@addAutoBones_then_addManualBones example_host (__init__ "Automatic")
           chain3_world
           (addAutoBones (__init__ "Automatic", chain3_world)).2.1
           (addAutoBones (__init__ "Automatic", chain3_world)).2.2 chain3_wf).
  vm_compute. reflexivity.
Defined.

(** X7 on the example chain and a table that names a missing bone. *)
Lemma addManualBones_idempotent_witness :
  ∃ w2, addManualBones partial_table (addManualBones partial_table chain3_world).2
        = (Return tt, w2) ∧
    bones_of w2 = bones_of (addManualBones partial_table chain3_world).2.
Proof.
  apply (@addManualBones_idempotent example_host partial_table chain3_world
           (addManualBones partial_table chain3_world).2 chain3_wf).
  vm_compute. reflexivity.
Defined.

(** X8 on the example chain: the table names ["Tail"], which the chain
    lacks, after ["Hips"], which it has. *)
Lemma testRig_reports_first_mismatch_witness :
  testRig partial_table "Custom" chain3_world
  = (Return tt,
     set_stdout (stdout chain3_world ++ ("Testing " +:+ "Custom") ::
                   mismatch_report partial_table "Armature" "Custom"
                     "Tail" "tail") chain3_world).
Proof.
  apply (proj2 (@testRig_reports_first_mismatch example_host partial_table
                  "Custom" chain3_world)
           [("Hips", "hips")] "Tail" "tail" []).
  - reflexivity.
  - repeat constructor.
  - reflexivity.
Defined.

(** X9 on the example chain. *)
Lemma findTargetKeys_of_collected_table_witness :
  (∀ mhx, mhx ≠ "" →
     findTargetKeys mhx
       (info_bones (addAutoBones (__init__ "Automatic", chain3_world)).2.1)
     = pb_name <$> filter (λ pb, McpBone pb = mhx)
         (bones_of (addAutoBones (__init__ "Automatic", chain3_world)).2.2)) ∧
  findTargetKeys ""
    (info_bones (addAutoBones (__init__ "Automatic", chain3_world)).2.1) = [].
Proof.
  apply (@findTargetKeys_of_collected_table example_host (__init__ "Automatic")
           chain3_world
           (addAutoBones (__init__ "Automatic", chain3_world)).1
           (addAutoBones (__init__ "Automatic", chain3_world)).2.1
           (addAutoBones (__init__ "Automatic", chain3_world)).2.2 chain3_wf).
  vm_compute. reflexivity.
Defined.


(** X11 on the directory of two mapping files. *)
Lemma initTargets_items_sorted_witness :
  ∃ keys,
    McpTargetRig_items (initTargets (example_world chain3 "Automatic" [] two_rigs)).2
    = (λ key, (key, key, key)) <$> keys ∧
    Sorted String.le keys ∧ NoDup keys ∧
    (∀ key, key ∈ keys ↔
       is_Some (getitem
                  (_targetInfo
                     (initTargets (example_world chain3 "Automatic" [] two_rigs)).2)
                  key)) ∧
    "Automatic" ∈ keys.
Proof.
  apply (@initTargets_items_sorted example_host
           (example_world chain3 "Automatic" [] two_rigs)).
  vm_compute. reflexivity.
Defined.


(** X16 on the example chain, the registry holding the synthetic entry. *)
Lemma getTargetArmature_automatic_witness :
  ∃ info w', getTargetArmature (inited_world "Automatic") = (Return info, w') ∧
    info = mkCTargetInfo (JStr "Automatic") "None"
             [("Hips", "hips"); ("Spine", "spine")] (JDict []) ∧
    getitem (_targetInfo w') "Automatic" = Some info ∧
    McpTPoseFile (object w') = "".
Proof.
  destruct (@getTargetArmature_automatic example_host tt chain3
              (inited_world "Automatic"))
    as (info & w' & Hrun & Hinfo & Hget & _ & Htpose & _).
  - discriminate.
  - reflexivity.
  - vm_compute. reflexivity.
  - reflexivity.
  - exact chain3_wf.
  - exists info, w'. split; [exact Hrun|]. split; [exact Hinfo|].
    split; [exact Hget|exact Htpose].
Defined.

(** X17 on an armature without bones, with a host whose search for roles
    gives up on it. *)
Lemma getTargetArmature_findArmature_raises_witness :
  getTargetArmature boneless_world
  = (Raise (MocapError "Did not find the hips"),
     set_object (mkRig "Empty" [] "")
       (set_stdout (stdout boneless_world ++ ["Guessing target"])
          (set_utils (@setCategory strict_host "Automatic Target Rig"
                        (@setCategory strict_host "Identify Target Rig"
                           (utils boneless_world))) boneless_world))).
Proof.
  apply (@getTargetArmature_findArmature_raises strict_host
           (MocapError "Did not find the hips") (mkRig "Empty" [] "")
           boneless_world).
  - discriminate.
  - reflexivity.
  - vm_compute. reflexivity.
  - reflexivity.
Defined.

(** X18 on the example chain with a selected name the registry lacks. *)
Lemma getTargetArmature_unknown_name_witness :
  getTargetArmature (inited_world "Custom")
  = (Raise (KeyError "Custom"),
     set_utils (@setCategory example_host "Manual Target Rig"
                  (@setCategory example_host "Identify Target Rig"
                     (utils (inited_world "Custom")))) (inited_world "Custom")).
Proof.
  apply (@getTargetArmature_unknown_name example_host "Custom"
           (inited_world "Custom")).
  - discriminate.
  - reflexivity.
  - discriminate.
  - reflexivity.
Defined.

(** X19 on the example chain without a directory of mapping files. *)
Lemma getTargetArmature_scan_failure_witness :
  getTargetArmature chain3_world
  = (Raise (OSError "/addons/retarget_bvh/target_rigs"),
     (initTargets
        (set_utils (@setCategory example_host "Identify Target Rig"
                      (utils chain3_world)) chain3_world)).2) ∧
  object (initTargets
            (set_utils (@setCategory example_host "Identify Target Rig"
                          (utils chain3_world)) chain3_world)).2
  = object chain3_world.
Proof.
  apply (@getTargetArmature_scan_failure example_host).
  - reflexivity.
  - vm_compute. reflexivity.
Defined.

(** X20 on a mapping file with a string as ["parents"], applied to the
    example chain. *)
Lemma string_parents_fail_on_use_witness :
  ∃ info w1,
    call_on_new (__init__ "Manual")
      (readFile "/addons/retarget_bvh/target_rigs/odd.json")
      (example_world chain3 "Automatic" [] string_parents_rigs)
    = (Return info, w1) ∧
    info_parents info = JStr "Hips" ∧
    ∃ msg w2, addManualBones info w1 = (Raise (AttributeError msg), w2).
Proof.
  destruct (@string_parents_fail_on_use example_host
              "/addons/retarget_bvh/target_rigs/odd.json"
              [("name", JStr "Odd"); ("bones", JDict [("Hips", "hips")]);
               ("parents", JStr "Hips")]
              (JStr "Odd") [("Hips", "hips")] "Hips" (__init__ "Manual")
              (example_world chain3 "Automatic" [] string_parents_rigs))
    as (info & w1 & Hread & Hpar & _ & msg & w2 & Hrun & _).
  - vm_compute. reflexivity.
  - reflexivity.
  - reflexivity.
  - reflexivity.
  - exact chain3_wf.
  - exists info, w1. split; [exact Hread|]. split; [exact Hpar|].
    exists msg, w2. exact Hrun.
Defined.

(** X21 on an armature the first check recognises. *)
Lemma getTargetArmature_guessed_kind_witness :
  ∃ w', getTargetArmature mhx_world = (Return mhx_table, w') ∧
    McpTargetRig (scene w') = "MHX" ∧
    ∃ pb', bones_of w' !! 0 = Some pb' ∧ McpBone pb' = "hips".
Proof.
  destruct (@getTargetArmature_guessed_kind example_host "MHX" mhx_table []
              mhx_world)
    as (w' & Hrun & Hsel & _ & Hroles & _).
  - discriminate.
  - reflexivity.
  - vm_compute. reflexivity.
  - discriminate.
  - apply (list_elem_of_lookup_2 _ 1). vm_compute. reflexivity.
  - reflexivity.
  - apply (bool_decide_unpack _). vm_compute. exact I.
  - reflexivity.
  - intros k Hk. by apply elem_of_nil in Hk.
  - exists w'. split; [exact Hrun|]. split; [exact Hsel|].
    destruct (Hroles 0 (mkPoseBone "root" None "" "") eq_refl)
      as (pb' & Hpb' & _ & Hrole).
    exists pb'. split; [exact Hpb'|exact Hrole].
Defined.
